(** * SafeShip backend: the credit-aware query and cache layer

    A shallow embedding of
      - [backend/src/services/mstClient.ts]   (the upstream AIS client and its TTL cache),
      - [backend/src/utils/shipTransform.ts]  (the ship normaliser),
      - [backend/src/legacy/area.ts]          (bounding boxes, area and near-me search),
      - [backend/src/legacy/api.ts]           (port mode),
    followed by the properties the design document states about them.

    Conventions of the embedding.
      - A JavaScript number is [num]: [NaN] or a finite rational kept in lowest
        terms, so that equal numbers are equal terms.  Infinities and binary
        rounding are outside the model.  Millisecond clocks, TTLs and vessel
        identifiers are integers ([Z]).
      - A JavaScript string is a [string] of ASCII code units.
      - [Number(s)], [String(n)] on a fractional number and [Math.cos] belong to
        the JavaScript runtime, not to this repository: they are the fields of
        a [Runtime] record the definitions are parameterised by.
      - [async] code is sequential here (every call is awaited), so it is a
        state-and-exception monad [M] over the [World]: the cache map, the
        number of clock readings taken, and the log of upstream calls. *)

From Stdlib Require Import DecimalString ZArith QArith Qround Qreduction.
From Stdlib Require Import String Ascii List Bool Lia Lqa Permutation.
From Stdlib Require DecimalZ DecimalPos.
From stdpp Require Import gmap strings list sorting.

Local Open Scope string_scope.
Local Open Scope Z_scope.

(* ===================================================================== *)
(** ** JavaScript numbers *)
(* ===================================================================== *)

Inductive num : Type :=
| NaN
| Fin (q : Q).

Definition num_of_Z (z : Z) : num := Fin (inject_Z z).
Coercion num_of_Z : Z >-> num.

Definition num_lift2 (f : Q -> Q -> Q) (a b : num) : num :=
  match a, b with
  | Fin x, Fin y => Fin (Qred (f x y))
  | _, _ => NaN
  end.

Definition num_add : num -> num -> num := num_lift2 Qplus.
Definition num_sub : num -> num -> num := num_lift2 Qminus.
Definition num_mul : num -> num -> num := num_lift2 Qmult.

(** [a / b]; a zero divisor has no finite quotient, which is [NaN] here. *)
Definition num_div (a b : num) : num :=
  match a, b with
  | Fin x, Fin y => if Qeq_bool y 0 then NaN else Fin (Qred (x / y))
  | _, _ => NaN
  end.

(** [a > b] and [a < b]: false as soon as one side is [NaN]. *)
Definition num_gtb (a b : num) : bool :=
  match a, b with
  | Fin x, Fin y => negb (Qle_bool x y)
  | _, _ => false
  end.

Definition num_ltb (a b : num) : bool := num_gtb b a.

Definition Number_isNaN (a : num) : bool :=
  match a with NaN => true | Fin _ => false end.

(** Truthiness of a number: [0] and [NaN] are falsy. *)
Definition num_truthy (a : num) : bool :=
  match a with
  | NaN => false
  | Fin q => negb (Qeq_bool q 0)
  end.

Definition Math_min (a b : num) : num :=
  match a, b with
  | Fin x, Fin y => if Qle_bool x y then a else b
  | _, _ => NaN
  end.

Definition Math_max (a b : num) : num :=
  match a, b with
  | Fin x, Fin y => if Qle_bool x y then b else a
  | _, _ => NaN
  end.

Definition Math_abs (a : num) : num :=
  match a with
  | NaN => NaN
  | Fin x => if Qle_bool 0 x then a else Fin (Qred (- x))
  end.

(** [Math.round]: the nearest integer, a tie going up. *)
Definition Math_round (a : num) : num :=
  match a with
  | NaN => NaN
  | Fin x => Fin (inject_Z (Qfloor (x + (1 # 2))))
  end.

(** [Math.PI], the binary64 number nearest to pi. *)
Definition Math_PI : num := Fin (884279719003555 # 281474976710656).

(** The order on finite numbers, for statements. *)
Definition num_le (a b : num) : Prop :=
  match a, b with
  | Fin x, Fin y => (x <= y)%Q
  | _, _ => False
  end.

(** [String(n)] for an integer [n]: its decimal digits. *)
Definition String_of_Z (z : Z) : string := NilZero.string_of_int (Z.to_int z).

(** What the JavaScript runtime supplies. *)
Record Runtime : Type := {
  Number_of_string : string -> num;      (* Number(s) *)
  String_of_num : num -> string;         (* String(n) *)
  Math_cos : Q -> Q                      (* Math.cos on a finite argument *)
}.

Definition Math_cos_num (rt : Runtime) (a : num) : num :=
  match a with
  | NaN => NaN
  | Fin x => Fin (Qred (Math_cos rt x))
  end.

(* ===================================================================== *)
(** ** JavaScript strings *)
(* ===================================================================== *)

Definition code (c : ascii) : N := N_of_ascii c.

(** The ASCII white space and line terminators [String.prototype.trim] strips. *)
Definition isSpace (c : ascii) : bool :=
  let n := code c in
  ((9 <=? n) && (n <=? 13))%N || (n =? 32)%N.

Definition isDigit (c : ascii) : bool :=
  let n := code c in ((48 <=? n) && (n <=? 57))%N.

Definition isUpper (c : ascii) : bool :=
  let n := code c in ((65 <=? n) && (n <=? 90))%N.

Definition isLower (c : ascii) : bool :=
  let n := code c in ((97 <=? n) && (n <=? 122))%N.

Definition isLetter (c : ascii) : bool := isUpper c || isLower c.

Definition upperChar (c : ascii) : ascii :=
  if isLower c then ascii_of_N (code c - 32) else c.

Definition lowerChar (c : ascii) : ascii :=
  if isUpper c then ascii_of_N (code c + 32) else c.

Fixpoint mapString (f : ascii -> ascii) (s : string) : string :=
  match s with
  | EmptyString => EmptyString
  | String c rest => String (f c) (mapString f rest)
  end.

Definition toUpperCase : string -> string := mapString upperChar.
Definition toLowerCase : string -> string := mapString lowerChar.

Fixpoint allChars (p : ascii -> bool) (s : string) : bool :=
  match s with
  | EmptyString => true
  | String c rest => p c && allChars p rest
  end.

Fixpoint trimStart (s : string) : string :=
  match s with
  | EmptyString => EmptyString
  | String c rest => if isSpace c then trimStart rest else s
  end.

(** [trimEnd]: a character is kept when it is no space or something is kept
    after it. *)
Fixpoint trimEnd (s : string) : string :=
  match s with
  | EmptyString => EmptyString
  | String c rest =>
      match trimEnd rest with
      | EmptyString => if isSpace c then EmptyString else String c EmptyString
      | kept => String c kept
      end
  end.

Definition trim (s : string) : string := trimEnd (trimStart s).

(** Truthiness of a string: only the empty string is falsy. *)
Definition nonEmpty (s : string) : bool :=
  match s with EmptyString => false | _ => true end.

(** [s.split(sep)] for a one-character separator: never an empty list. *)
Fixpoint split (sep : ascii) (s : string) : list string :=
  match s with
  | EmptyString => [EmptyString]
  | String c rest =>
      if Ascii.eqb c sep then EmptyString :: split sep rest
      else match split sep rest with
           | [] => [String c EmptyString]
           | piece :: pieces => String c piece :: pieces
           end
  end.

(** [pieces.join(sep)]. *)
Definition join (sep : string) (pieces : list string) : string :=
  String.concat sep pieces.

Definition startsWith (s pre : string) : bool := String.prefix pre s.

(* ===================================================================== *)
(** ** Upstream record shapes ([mstClient.ts]) and the canonical record *)
(* ===================================================================== *)

Record ZoneQuery : Type := {
  zq_minLat : num;
  zq_maxLat : num;
  zq_minLon : num;
  zq_maxLon : num;
  zq_minutesBack : option num;
  zq_response : option string
}.

Record MstZoneVessel : Type := {
  zv_vessel_name : string;
  zv_mmsi : option Z;
  zv_imo : option Z;
  zv_vtype : option Z;
  zv_lat : num;
  zv_lng : num;
  zv_course : option num;
  zv_speed : option num;
  zv_nav_status : option string;
  zv_received : string
}.

Record MstPortSearchResult : Type := {
  ps_port_id : num;
  ps_name : string;
  ps_unloco : string;
  ps_port_type : string;
  ps_country : string
}.

Record MstPortVessel : Type := {
  pv_mmsi : option Z;
  pv_imo : option Z;
  pv_name : string;
  pv_arrived : option string;
  pv_vtype : option Z;
  pv_vessel_type : option string;
  pv_flag : option string;
  pv_gt : option num;
  pv_dwt : option num;
  pv_built : option num;
  pv_length : option num;
  pv_width : option num
}.

(** [ShipSummary] of [shipTransform.ts]. *)
Record ShipSummary : Type := {
  name : string;
  id : string;
  lat : num;
  lon : num;
  timestamp : string;
  mmsi : string;
  imo : string;
  callsign : string;
  speed : num;
  area : string;
  type : string;
  country : string;
  destination : string;
  port_current : string;
  port_next : string;
  course : option num;
  nav_status : option string;
  source : string
}.

(** The [data] of an envelope.  The client asserts its shape by a type
    annotation only; the shapes the call sites name are the constructors, and
    [PNull] is a [null] or missing [data]. *)
Inductive Payload : Type :=
| PNull
| PZoneVessels (vessels : list MstZoneVessel)
| PPorts (ports : list MstPortSearchResult)
| PPortVessels (vessels : list MstPortVessel).

(** Truthiness of a payload: an array is truthy, even when empty. *)
Definition payload_truthy (p : Payload) : bool :=
  match p with PNull => false | _ => true end.

(** [MstEnvelope]: [status] is any string the upstream sent. *)
Record MstEnvelope : Type := {
  env_status : string;
  env_data : Payload;
  env_message : option string;
  env_code : option string
}.

(** The text of a response as [JSON.parse] reads it. *)
Inductive Body : Type :=
| Malformed (why : string)          (* JSON.parse throws, with this message *)
| JsonNull                          (* the text is the JSON value null *)
| Json (envelope : MstEnvelope).

Record HttpResponse : Type := {
  ok : bool;
  status : Z;
  body : Body
}.

Inductive FetchOutcome : Type :=
| Rejected (why : string)           (* fetch() itself rejects *)
| Responded (response : HttpResponse).

(** One authenticated GET: the endpoint path and the query string. *)
Record UpstreamCall : Type := {
  call_path : string;
  call_query : list (string * string)
}.

(** A parameter value: [string | number | undefined]. *)
Inductive PVal : Type :=
| PUndefined
| PStr (s : string)
| PNum (n : num).

(* ===================================================================== *)
(** ** Errors, the world and the monad *)
(* ===================================================================== *)

(** The [Error]s the code throws, by their message templates. *)
Inductive Error : Type :=
| MissingApiKey                                    (* Missing MST_API_KEY environment variable *)
| FetchRejected (why : string)
| ParseFailed (path why : string)                  (* [MST] Failed to parse response for path: why *)
| RequestFailed (code : string + Z) (message : string)
                                                   (* [MST] Request failed (code): message *)
| MissingVesselIdentifier                          (* Either mmsi or imo must be provided ... *)
| MissingPortReference                             (* portId or unloco must be provided ... *)
| MissingBulkIdentifiers                           (* At least one MMSI or IMO must be provided ... *)
| BoxTooLarge (latSpan lonSpan : num)              (* Bounding box too large (lat span .., lon span ..) *)
| TypeError (why : string).

Inductive Outcome (A : Type) : Type :=
| Ok (a : A)
| Throw (e : Error).
Arguments Ok {A} a.
Arguments Throw {A} e.

Record CacheEntry : Type := {
  expiresAt : Z;
  payload : Payload
}.

(** The process state the core reads and writes.  [zoneQueries] is a ghost
    log of the calls of [getVesselsInZone]; [fetched] logs the GETs issued. *)
Record World : Type := {
  cache : gmap string CacheEntry;
  ticks : nat;
  fetched : list UpstreamCall;
  zoneQueries : list ZoneQuery
}.

(** What the outside supplies: the [n]-th reading of [Date.now()], and the
    outcome of the [n]-th GET. *)
Record Env : Type := {
  clock : nat -> Z;
  upstream : nat -> UpstreamCall -> FetchOutcome
}.

(** The module-level constants read from [process.env]. *)
Record Config : Type := {
  MST_API_KEY : option string;
  DEFAULT_CACHE_MS : Z;
  DEFAULT_MINUTES_BACK : num;
  MAX_LAT_SPAN : num;
  MAX_LON_SPAN : num;
  MAX_RESULTS : nat;
  MAX_PORT_VESSELS : nat
}.

Definition M (A : Type) : Type := World -> Outcome A * World.

Definition ret {A : Type} (a : A) : M A := fun w => (Ok a, w).

Definition throw {A : Type} (e : Error) : M A := fun w => (Throw e, w).

Definition bind {A B : Type} (m : M A) (k : A -> M B) : M B :=
  fun w =>
    match m w with
    | (Ok a, w') => k a w'
    | (Throw e, w') => (Throw e, w')
    end.

Notation "x <- m ;; k" := (bind m (fun x => k))
  (at level 100, m at next level, right associativity).
Notation "m ;;; k" := (bind m (fun _ => k))
  (at level 100, right associativity).

(** [try m catch (_) { handler }]. *)
Definition catch {A : Type} (m : M A) (handler : Error -> M A) : M A :=
  fun w =>
    match m w with
    | (Ok a, w') => (Ok a, w')
    | (Throw e, w') => handler e w'
    end.

(** A pure computation that may throw, run inside [M]. *)
Definition lift {A : Type} (o : Outcome A) : M A := fun w => (o, w).

Fixpoint mapM {A B : Type} (f : A -> M B) (l : list A) : M (list B) :=
  match l with
  | [] => ret []
  | x :: rest => y <- f x ;; ys <- mapM f rest ;; ret (y :: ys)
  end.

(** [Date.now()]: the next reading of the clock. *)
Definition Date_now (env : Env) : M Z :=
  fun w =>
    (Ok (clock env (ticks w)),
     {| cache := cache w; ticks := S (ticks w);
        fetched := fetched w; zoneQueries := zoneQueries w |}).

(** [fetch(url, ...)]: the call is logged, then the upstream answers. *)
Definition fetch (env : Env) (call : UpstreamCall) : M HttpResponse :=
  fun w =>
    let w' := {| cache := cache w; ticks := ticks w;
                 fetched := fetched w ++ [call]; zoneQueries := zoneQueries w |} in
    match upstream env (length (fetched w)) call with
    | Rejected why => (Throw (FetchRejected why), w')
    | Responded response => (Ok response, w')
    end.

Definition set_cache (f : gmap string CacheEntry -> gmap string CacheEntry) : M unit :=
  fun w =>
    (Ok tt,
     {| cache := f (cache w); ticks := ticks w;
        fetched := fetched w; zoneQueries := zoneQueries w |}).

Definition get_cache : M (gmap string CacheEntry) := fun w => (Ok (cache w), w).

Definition log_zone_query (q : ZoneQuery) : M unit :=
  fun w =>
    (Ok tt,
     {| cache := cache w; ticks := ticks w;
        fetched := fetched w; zoneQueries := zoneQueries w ++ [q] |}).

(* ===================================================================== *)
(** ** [MyShipTrackingClient] ([services/mstClient.ts]) *)
(* ===================================================================== *)

(** [get apiKey]: throws when the variable is unset or empty. *)
Definition apiKey (cfg : Config) : M string :=
  match MST_API_KEY cfg with
  | Some key => if nonEmpty key then ret key else throw MissingApiKey
  | None => throw MissingApiKey
  end.

(** [params[key]] on an object given as its entries. *)
Fixpoint lookupParam {V : Type} (key : string) (params : list (string * V)) : option V :=
  match params with
  | [] => None
  | (k, v) :: rest => if String.eqb k key then Some v else lookupParam key rest
  end.

(** The default order of [Array.prototype.sort] on strings: by code units. *)
Definition key_le (a b : string) : Prop := String.leb a b = true.

#[global] Instance key_le_dec (a b : string) : Decision (key_le a b) :=
  bool_eq_dec (String.leb a b) true.

(** [Object.keys(params).sort()]. *)
Definition sortKeys (keys : list string) : list string :=
  merge_sort key_le keys.

Definition buildCacheKey (path : string) (params : list (string * string)) : string :=
  let keys := sortKeys (map fst params) in
  let serialized :=
    join "|" (map (fun key =>
                     key ++ ":" ++ match lookupParam key params with
                                   | Some v => v
                                   | None => ""
                                   end) keys) in
  path ++ "?" ++ serialized.

Definition readCache (env : Env) (key : string) : M (option Payload) :=
  entries <- get_cache ;;
  match entries !! key with
  | None => ret None
  | Some entry =>
      now <- Date_now env ;;
      if expiresAt entry <? now
      then set_cache (delete key) ;;; ret None
      else ret (Some (payload entry))
  end.

Definition writeCache (env : Env) (key : string) (data : Payload) (ttlMs : Z) : M unit :=
  if ttlMs <=? 0 then ret tt
  else now <- Date_now env ;;
       set_cache (insert key {| expiresAt := now + ttlMs; payload := data |}).

(** [String(value)] of a defined parameter value. *)
Definition String_of_PVal (rt : Runtime) (v : PVal) : string :=
  match v with
  | PUndefined => "undefined"
  | PStr s => s
  | PNum n => String_of_num rt n
  end.

Fixpoint sanitizeParams (rt : Runtime) (params : list (string * PVal))
  : list (string * string) :=
  match params with
  | [] => []
  | (key, PUndefined) :: rest => sanitizeParams rt rest
  | (key, value) :: rest => (key, String_of_PVal rt value) :: sanitizeParams rt rest
  end.

(** The part of [request] after the cache lookup: the authenticated GET, the
    envelope check and the cache write. *)
Definition request_upstream (cfg : Config) (env : Env)
  (path : string) (normalizedParams : list (string * string))
  (cacheKey : string) (cacheMs : Z) : M Payload :=
  _key <- apiKey cfg ;;
  response <- fetch env {| call_path := path; call_query := normalizedParams |} ;;
  match body response with
  | Malformed why => throw (ParseFailed path why)
  | JsonNull => throw (TypeError "Cannot read properties of null")
  | Json envelope =>
      if negb (ok response) || negb (String.eqb (env_status envelope) "success")
      then throw (RequestFailed
                    match env_code envelope with
                    | Some c => inl c
                    | None => inr (status response)
                    end
                    match env_message envelope with
                    | Some m => m
                    | None => "Unknown error"
                    end)
      else (if 0 <? cacheMs
            then writeCache env cacheKey (env_data envelope) cacheMs
            else ret tt) ;;;
           ret (env_data envelope)
  end.

(** [request]: a cached payload is returned only when it is truthy
    ([if (cached) return cached]). *)
Definition request (rt : Runtime) (cfg : Config) (env : Env)
  (path : string) (params : list (string * PVal)) (cacheMs : Z) : M Payload :=
  let normalizedParams := sanitizeParams rt params in
  let cacheKey := buildCacheKey path normalizedParams in
  cached <- (if 0 <? cacheMs then readCache env cacheKey else ret None) ;;
  match cached with
  | Some hit =>
      if payload_truthy hit then ret hit
      else request_upstream cfg env path normalizedParams cacheKey cacheMs
  | None => request_upstream cfg env path normalizedParams cacheKey cacheMs
  end.

(** The shape a call site asserts for the payload it awaits.  Data of another
    shape has no counterpart in the typed code; using it is a [TypeError]. *)
Definition asZoneVessels (p : Payload) : M (list MstZoneVessel) :=
  match p with
  | PZoneVessels vessels => ret vessels
  | _ => throw (TypeError "not a list of zone vessels")
  end.

Definition asPorts (p : Payload) : M (list MstPortSearchResult) :=
  match p with
  | PPorts ports => ret ports
  | _ => throw (TypeError "not a list of ports")
  end.

Definition asPortVessels (p : Payload) : M (list MstPortVessel) :=
  match p with
  | PPortVessels vessels => ret vessels
  | _ => throw (TypeError "not a list of port vessels")
  end.

Definition zoneParams (query : ZoneQuery) : list (string * PVal) :=
  ([ ("minlat", PNum (zq_minLat query));
    ("maxlat", PNum (zq_maxLat query));
    ("minlon", PNum (zq_minLon query));
    ("maxlon", PNum (zq_maxLon query));
    ("response", PStr match zq_response query with
                      | Some r => r
                      | None => "simple"
                      end) ]
  ++ match zq_minutesBack query with
     | Some m => if num_truthy m then [("minutesBack", PNum m)] else []
     | None => []
     end)%list.

(** Cached for five minutes to save credits. *)
Definition getVesselsInZone (rt : Runtime) (cfg : Config) (env : Env)
  (query : ZoneQuery) : M (list MstZoneVessel) :=
  log_zone_query query ;;;
  data <- request rt cfg env "vessel/zone" (zoneParams query) 300000 ;;
  asZoneVessels data.

Definition searchPorts (rt : Runtime) (cfg : Config) (env : Env)
  (portName : string) : M (list MstPortSearchResult) :=
  data <- request rt cfg env "port/search" [("name", PStr portName)] (5 * 60 * 1000) ;;
  asPorts data.

(** The result of [resolvePortIdentifier], also the options of
    [mstClient.getVesselsInPort]. *)
Record PortReference : Type := {
  portId : option num;
  unloco : option string;
  ref_name : option string
}.

Definition opt_num_truthy (o : option num) : bool :=
  match o with Some n => num_truthy n | None => false end.

Definition opt_string_truthy (o : option string) : bool :=
  match o with Some s => nonEmpty s | None => false end.

Definition client_getVesselsInPort (rt : Runtime) (cfg : Config) (env : Env)
  (options : PortReference) : M (list MstPortVessel) :=
  if negb (opt_num_truthy (portId options)) && negb (opt_string_truthy (unloco options))
  then throw MissingPortReference
  else
    let params :=
      (match portId options with
       | Some p => if num_truthy p then [("port_id", PNum p)] else []
       | None => []
       end
       ++ match unloco options with
          | Some u => if nonEmpty u then [("unloco", PStr u)] else []
          | None => []
          end)%list in
    data <- request rt cfg env "port/inport" params 60000 ;;
    asPortVessels data.

Record BulkStatusQuery : Type := {
  bq_mmsi : option (list string);
  bq_imo : option (list string);
  bq_response : option string;
  bq_src : option string
}.

Definition sanitizeList (l : option (list string)) : string :=
  join "," (firstn 100 (filter (fun value => nonEmpty value = true)
                               (map trim match l with
                                         | Some values => values
                                         | None => []
                                         end))).

Definition hasIdentifiers (l : option (list string)) : bool :=
  match l with
  | Some (_ :: _) => true
  | _ => false
  end.

Definition getBulkVesselStatus (rt : Runtime) (cfg : Config) (env : Env)
  (query : BulkStatusQuery) : M (list MstZoneVessel) :=
  let hasMmsi := hasIdentifiers (bq_mmsi query) in
  let hasImo := hasIdentifiers (bq_imo query) in
  if negb hasMmsi && negb hasImo then throw MissingBulkIdentifiers
  else
    let params :=
      ([("response", PStr match bq_response query with
                          | Some r => r
                          | None => "simple"
                          end)]
       ++ (if hasMmsi then [("mmsi", PStr (sanitizeList (bq_mmsi query)))] else [])
       ++ (if hasImo then [("imo", PStr (sanitizeList (bq_imo query)))] else [])
       ++ match bq_src query with
          | Some s => if nonEmpty s then [("src", PStr s)] else []
          | None => []
          end)%list in
    data <- request rt cfg env "vessel/bulk" params 5000 ;;
    asZoneVessels data.

(* ===================================================================== *)
(** ** The ship normaliser ([utils/shipTransform.ts]) *)
(* ===================================================================== *)

(** A numeric identifier when it is truthy (present and not [0]). *)
Definition truthyZ (o : option Z) : option Z :=
  match o with
  | Some z => if z =? 0 then None else Some z
  | None => None
  end.

(** [buildShipId]: mmsi, then imo, then [name-timestamp], then a clock
    reading. *)
Definition buildShipId (env : Env) (mmsi_ imo_ : option Z)
  (name_ timestamp_ : string) : M string :=
  match truthyZ mmsi_ with
  | Some m => ret (String_of_Z m)
  | None =>
      match truthyZ imo_ with
      | Some i => ret (String_of_Z i)
      | None =>
          let fallback :=
            join "-" (filter (fun part => nonEmpty part = true) [name_; timestamp_]) in
          if nonEmpty fallback then ret fallback
          else now <- Date_now env ;; ret ("ship-" ++ String_of_Z now)
      end
  end.

(** [String(value)] of an optional identifier. *)
Definition String_of_optZ (o : option Z) : string :=
  match o with
  | Some z => String_of_Z z
  | None => "undefined"
  end.

(** [value ? String(value) : ""]. *)
Definition String_or_empty (o : option Z) : string :=
  match truthyZ o with
  | Some z => String_of_Z z
  | None => ""
  end.

Definition mapZoneVesselToShip (env : Env) (vessel : MstZoneVessel) : M ShipSummary :=
  id_ <- buildShipId env (zv_mmsi vessel) (zv_imo vessel)
           (zv_vessel_name vessel) (zv_received vessel) ;;
  ret {| name := zv_vessel_name vessel;
         id := id_;
         lat := zv_lat vessel;
         lon := zv_lng vessel;
         timestamp := zv_received vessel;
         mmsi := String_or_empty (zv_mmsi vessel);
         imo := String_or_empty (zv_imo vessel);
         callsign := "";
         speed := match zv_speed vessel with Some s => s | None => 0 end;
         area := "";
         type := String_or_empty (zv_vtype vessel);
         country := "";
         destination := "";
         port_current := "";
         port_next := "";
         course := zv_course vessel;
         nav_status := zv_nav_status vessel;
         source := "myshiptracking.com" |}.

Definition mapPortVesselToShip (env : Env) (vessel : MstPortVessel) : M ShipSummary :=
  let arrived := match pv_arrived vessel with Some a => a | None => "" end in
  id_ <- buildShipId env (pv_mmsi vessel) (pv_imo vessel) (pv_name vessel) arrived ;;
  ret {| name := pv_name vessel;
         id := id_;
         lat := NaN;
         lon := NaN;
         timestamp := arrived;
         mmsi := String_or_empty (pv_mmsi vessel);
         imo := String_or_empty (pv_imo vessel);
         callsign := "";
         speed := 0;
         area := "";
         type := match pv_vessel_type vessel with
                 | Some t => t
                 | None => String_or_empty (pv_vtype vessel)
                 end;
         country := match pv_flag vessel with Some f => f | None => "" end;
         destination := "";
         port_current := "";
         port_next := "";
         course := None;
         nav_status := None;
         source := "myshiptracking.com" |}.

(* ===================================================================== *)
(** ** Bounding boxes and area search ([legacy/area.ts]) *)
(* ===================================================================== *)

Record BoundingBox : Type := {
  minLat : num;
  maxLat : num;
  minLon : num;
  maxLon : num
}.

Definition WMED : BoundingBox :=
  {| minLat := 34; maxLat := 42; minLon := (-6); maxLon := 15 |}.
Definition EMED : BoundingBox :=
  {| minLat := 30; maxLat := 42; minLon := 15; maxLon := 36 |}.
Definition CMED : BoundingBox :=
  {| minLat := 32; maxLat := 40; minLon := 10; maxLon := 24 |}.
Definition BSEA : BoundingBox :=
  {| minLat := 40; maxLat := 47; minLon := 27; maxLon := 42 |}.
Definition CARIB : BoundingBox :=
  {| minLat := 10; maxLat := 22; minLon := (-88); maxLon := (-60) |}.

Definition AREA_PRESETS : list (string * BoundingBox) :=
  [("WMED", WMED); ("EMED", EMED); ("CMED", CMED); ("BSEA", BSEA); ("CARIB", CARIB)].

Definition clampNumber (value min_ max_ : num) : num :=
  Math_min (Math_max value min_) max_.

(** The spans [normalizeBox] computes before it decides. *)
Definition latSpan (box : BoundingBox) : num :=
  Math_abs (num_sub (Math_max (minLat box) (maxLat box))
                    (Math_min (minLat box) (maxLat box))).

Definition lonSpan (box : BoundingBox) : num :=
  Math_abs (num_sub (Math_max (minLon box) (maxLon box))
                    (Math_min (minLon box) (maxLon box))).

Definition normalizeBox (cfg : Config) (box : BoundingBox) : Outcome BoundingBox :=
  let minLat_ := Math_min (minLat box) (maxLat box) in
  let maxLat_ := Math_max (minLat box) (maxLat box) in
  let minLon_ := Math_min (minLon box) (maxLon box) in
  let maxLon_ := Math_max (minLon box) (maxLon box) in
  if num_gtb (latSpan box) (MAX_LAT_SPAN cfg) || num_gtb (lonSpan box) (MAX_LON_SPAN cfg)
  then Throw (BoxTooLarge (latSpan box) (lonSpan box))
  else Ok {| minLat := clampNumber minLat_ (-90) 90;
             maxLat := clampNumber maxLat_ (-90) 90;
             minLon := clampNumber minLon_ (-180) 180;
             maxLon := clampNumber maxLon_ (-180) 180 |}.

Definition parseBoundingBoxToken (rt : Runtime) (token : string) : option BoundingBox :=
  let trimmed := trim token in
  if negb (nonEmpty trimmed) then None
  else
    match lookupParam (toUpperCase trimmed) AREA_PRESETS with
    | Some preset => Some preset
    | None =>
        if startsWith (toLowerCase trimmed) "bbox:" then
          match nth_error (firstn 2 (split ":" trimmed)) 1 with
          | Some coords =>
              match map (Number_of_string rt) (split "|" coords) with
              | [v0; v1; v2; v3] =>
                  if forallb (fun value => negb (Number_isNaN value)) [v0; v1; v2; v3]
                  then Some {| minLat := v0; minLon := v1; maxLat := v2; maxLon := v3 |}
                  else None
              | _ => None
              end
          | None => None
          end
        else None
    end.

(** The tokens of an area expression: split on commas, trimmed, empty ones
    dropped. *)
Definition areaTokens (expression : string) : list string :=
  filter (fun token => nonEmpty token = true) (map trim (split "," expression)).

(** [array.map(f)] for an [f] that may throw: the first failure is the
    outcome. *)
Fixpoint mapOutcome {A B : Type} (f : A -> Outcome B) (l : list A) : Outcome (list B) :=
  match l with
  | [] => Ok []
  | x :: rest =>
      match f x with
      | Throw e => Throw e
      | Ok y =>
          match mapOutcome f rest with
          | Throw e => Throw e
          | Ok ys => Ok (y :: ys)
          end
      end
  end.

Definition tokenizeAreaExpression (rt : Runtime) (cfg : Config) (expression : string)
  : Outcome (list BoundingBox) :=
  if negb (nonEmpty expression) then Ok [WMED]
  else
    match mapOutcome (normalizeBox cfg)
            (omap (parseBoundingBoxToken rt) (areaTokens expression)) with
    | Throw e => Throw e
    | Ok [] => Ok [WMED]
    | Ok boxes => Ok boxes
    end.

Definition formatMinutesBack (cfg : Config) (minutesBack : option num) : num :=
  match minutesBack with
  | None => DEFAULT_MINUTES_BACK cfg
  | Some m =>
      if negb (num_truthy m) || Number_isNaN m then DEFAULT_MINUTES_BACK cfg
      else (* API requires minutesBack >= 60 *)
        clampNumber (Math_round m) 60 720
  end.

Definition mapZoneResults (cfg : Config) (vessels : list ShipSummary) : list ShipSummary :=
  firstn (MAX_RESULTS cfg)
    (filter (fun ship =>
               negb (Number_isNaN (lat ship)) && negb (Number_isNaN (lon ship)) = true)
            vessels).

(** The [Map<string, ShipSummary>] of [fetchVesselsInArea], in insertion
    order. *)
Definition has (key : string) (dedup : list (string * ShipSummary)) : bool :=
  existsb (fun entry => String.eqb (fst entry) key) dedup.

(** The body of [vessels.forEach] in [fetchVesselsInArea]. *)
Fixpoint mergeVessels (env : Env) (vessels : list MstZoneVessel)
  (dedup : list (string * ShipSummary)) : M (list (string * ShipSummary)) :=
  match vessels with
  | [] => ret dedup
  | vessel :: rest =>
      mapped <- mapZoneVesselToShip env vessel ;;
      mergeVessels env rest
        (if has (id mapped) dedup then dedup else (dedup ++ [(id mapped, mapped)])%list)
  end.

Definition boxQuery (minutesBack : num) (box : BoundingBox) : ZoneQuery :=
  {| zq_minLat := minLat box;
     zq_maxLat := maxLat box;
     zq_minLon := minLon box;
     zq_maxLon := maxLon box;
     zq_minutesBack := Some minutesBack;
     zq_response := Some "simple" |}.

(** The [for (const box of boxes)] loop of [fetchVesselsInArea]. *)
Fixpoint areaLoop (rt : Runtime) (cfg : Config) (env : Env) (minutesBack : num)
  (boxes : list BoundingBox) (dedup : list (string * ShipSummary))
  : M (list (string * ShipSummary)) :=
  match boxes with
  | [] => ret dedup
  | box :: rest =>
      vessels <- getVesselsInZone rt cfg env (boxQuery minutesBack box) ;;
      dedup' <- mergeVessels env vessels dedup ;;
      if (MAX_RESULTS cfg <=? length dedup')%nat then ret dedup'
      else areaLoop rt cfg env minutesBack rest dedup'
  end.

(** [fetchVesselsInArea]: the value returned is what the callback receives. *)
Definition fetchVesselsInArea (rt : Runtime) (cfg : Config) (env : Env)
  (expression : string) (minutesBack : option num) : M (list ShipSummary) :=
  boxes <- lift (tokenizeAreaExpression rt cfg expression) ;;
  dedup <- areaLoop rt cfg env (formatMinutesBack cfg minutesBack) boxes [] ;;
  ret (mapZoneResults cfg (map snd dedup)).

Definition nauticalMilesToLatDelta (distanceNm : num) : num :=
  num_div distanceNm 60.

Definition nauticalMilesToLonDelta (rt : Runtime) (distanceNm latitude : num) : num :=
  let radians := num_div (num_mul latitude Math_PI) 180 in
  let safeCos := Math_max (Math_cos_num rt radians) (Fin (1 # 10)) in
  num_div distanceNm (num_mul 60 safeCos).

(** The zone query [fetchVesselsNearMe] derives from its arguments. *)
Definition nearMeQuery (rt : Runtime) (cfg : Config)
  (lat_ lon_ distance : num) (minutesBack : option num) : ZoneQuery :=
  let safeDistance := clampNumber distance 1 50 in
  let latDelta := nauticalMilesToLatDelta safeDistance in
  let lonDelta := nauticalMilesToLonDelta rt safeDistance lat_ in
  {| zq_minLat := num_sub lat_ latDelta;
     zq_maxLat := num_add lat_ latDelta;
     zq_minLon := num_sub lon_ lonDelta;
     zq_maxLon := num_add lon_ lonDelta;
     zq_minutesBack := Some (formatMinutesBack cfg minutesBack);
     zq_response := Some "simple" |}.

Definition fetchVesselsNearMe (rt : Runtime) (cfg : Config) (env : Env)
  (lat_ lon_ distance : num) (minutesBack : option num) : M (list ShipSummary) :=
  vessels <- getVesselsInZone rt cfg env (nearMeQuery rt cfg lat_ lon_ distance minutesBack) ;;
  mapped <- mapM (mapZoneVesselToShip env) vessels ;;
  ret (mapZoneResults cfg mapped).

(* ===================================================================== *)
(** ** Port mode ([legacy/api.ts]) *)
(* ===================================================================== *)

(** [/^\d+$/]. *)
Definition allDigits (s : string) : bool := nonEmpty s && allChars isDigit s.

(** [/^[A-Za-z]{5}$/]. *)
Definition fiveLetters (s : string) : bool :=
  (String.length s =? 5)%nat && allChars isLetter s.

Definition resolvePortIdentifier (rt : Runtime) (cfg : Config) (env : Env)
  (rawInput : option string) : M (option PortReference) :=
  match rawInput with
  | None => ret None
  | Some raw =>
      if negb (nonEmpty raw) then ret None
      else
        let trimmed := trim raw in
        if negb (nonEmpty trimmed) then ret None
        else if allDigits trimmed then
          ret (Some {| portId := Some (Number_of_string rt trimmed);
                       unloco := None;
                       ref_name := Some trimmed |})
        else if fiveLetters trimmed then
          ret (Some {| portId := None;
                       unloco := Some (toUpperCase trimmed);
                       ref_name := Some (toUpperCase trimmed) |})
        else
          matches <- searchPorts rt cfg env trimmed ;;
          match matches with
          | [] => ret None
          | match_ :: _ =>
              ret (Some {| portId := Some (ps_port_id match_);
                           unloco := Some (ps_unloco match_);
                           ref_name := Some (ps_name match_) |})
          end
  end.

(** [statuses.forEach] of [getVesselsInPort]: the status map, keyed by mmsi. *)
Fixpoint buildStatusMap (env : Env) (statuses : list MstZoneVessel)
  (statusMap : gmap string ShipSummary) : M (gmap string ShipSummary) :=
  match statuses with
  | [] => ret statusMap
  | status_ :: rest =>
      match truthyZ (zv_mmsi status_) with
      | Some m =>
          mapped <- mapZoneVesselToShip env status_ ;;
          buildStatusMap env rest (<[String_of_Z m := mapped]> statusMap)
      | None => buildStatusMap env rest statusMap
      end
  end.

(** One port vessel merged with its live status, when it has one. *)
Definition mergePortVessel (portReference : PortReference)
  (statusMap : gmap string ShipSummary) (vessel : MstPortVessel) : option ShipSummary :=
  match truthyZ (pv_mmsi vessel) with
  | None => None
  | Some m =>
      match statusMap !! String_of_Z m with
      | None => None
      | Some base =>
          Some {| name := name base;
                  id := id base;
                  lat := lat base;
                  lon := lon base;
                  timestamp := timestamp base;
                  mmsi := mmsi base;
                  imo := imo base;
                  callsign := callsign base;
                  speed := speed base;
                  area := area base;
                  type := match pv_vessel_type vessel with
                          | Some t => t
                          | None => type base
                          end;
                  country := match pv_flag vessel with
                             | Some f => f
                             | None => country base
                             end;
                  destination := destination base;
                  port_current := match ref_name portReference with
                                  | Some n => n
                                  | None => port_current base
                                  end;
                  port_next := port_next base;
                  course := course base;
                  nav_status := nav_status base;
                  source := source base |}
      end
  end.

(** The promise chain of [getVesselsInPort] before its [.catch]. *)
Definition getVesselsInPort_body (rt : Runtime) (cfg : Config) (env : Env)
  (shipPort : option string) : M (list ShipSummary) :=
  resolved <- resolvePortIdentifier rt cfg env shipPort ;;
  match resolved with
  | None => ret []
  | Some portReference =>
      vesselsInPort <- client_getVesselsInPort rt cfg env portReference ;;
      let withMmsi :=
        firstn (MAX_PORT_VESSELS cfg)
          (filter (fun vessel => is_Some (truthyZ (pv_mmsi vessel))) vesselsInPort) in
      match withMmsi with
      | [] => ret []
      | _ =>
          let mmsiList := map (fun vessel => String_of_optZ (pv_mmsi vessel)) withMmsi in
          statuses <- getBulkVesselStatus rt cfg env
                        {| bq_mmsi := Some mmsiList; bq_imo := None;
                           bq_response := None; bq_src := None |} ;;
          statusMap <- buildStatusMap env statuses ∅ ;;
          ret (omap (mergePortVessel portReference statusMap) withMmsi)
      end
  end.

(** [getVesselsInPort]: any failure is logged and answered with [cb([])]. *)
Definition getVesselsInPort (rt : Runtime) (cfg : Config) (env : Env)
  (shipPort : option string) : M (list ShipSummary) :=
  catch (getVesselsInPort_body rt cfg env shipPort) (fun _error => ret []).

(* ===================================================================== *)
(** ** Concrete settings for the examples *)
(* ===================================================================== *)

(** The values the constants take when no environment variable overrides
    them (with a credential). *)
Definition defaultConfig : Config :=
  {| MST_API_KEY := Some "secret";
     DEFAULT_CACHE_MS := 30000;
     DEFAULT_MINUTES_BACK := 60;
     MAX_LAT_SPAN := 10;
     MAX_LON_SPAN := 25;
     MAX_RESULTS := 200;
     MAX_PORT_VESSELS := 40 |}.

(** [MST_DEFAULT_MINUTES_BACK=30]. *)
Definition config30 : Config :=
  {| MST_API_KEY := Some "secret";
     DEFAULT_CACHE_MS := 30000;
     DEFAULT_MINUTES_BACK := 30;
     MAX_LAT_SPAN := 10;
     MAX_LON_SPAN := 25;
     MAX_RESULTS := 200;
     MAX_PORT_VESSELS := 40 |}.

Definition digitValue (c : ascii) : Z := Z.of_N (code c) - 48.

Fixpoint digitsValue (acc : Z) (s : string) : Z :=
  match s with
  | EmptyString => acc
  | String c rest => digitsValue (10 * acc + digitValue c) rest
  end.

(** A runtime for the examples.  Its [Number] and [String] agree with
    JavaScript's on the decimal integers, which is all the examples apply
    them to; its cosine is the series cut after the square, exact at [0]. *)
Definition sampleRuntime : Runtime :=
  {| Number_of_string := fun s =>
       match s with
       | EmptyString => 0
       | String "-" rest =>
           if allDigits rest then num_of_Z (- digitsValue 0 rest) else NaN
       | _ => if allDigits s then num_of_Z (digitsValue 0 s) else NaN
       end;
     String_of_num := fun n =>
       match n with
       | NaN => "NaN"
       | Fin q => if (Qden q =? 1)%positive then String_of_Z (Qnum q)
                  else String_of_Z (Qnum q) ++ "/" ++ String_of_Z (Zpos (Qden q))
       end;
     Math_cos := fun x => (1 - x * x / 2)%Q |}.

Definition emptyWorld : World :=
  {| cache := ∅; ticks := 0; fetched := []; zoneQueries := [] |}.

(** A clock that reads [1000], then [1100], then [1100 + n]. *)
Definition sampleClock (n : nat) : Z :=
  match n with
  | O => 1000
  | S m => 1100 + Z.of_nat m
  end.

Definition successResponse (data : Payload) : FetchOutcome :=
  Responded {| ok := true; status := 200;
               body := Json {| env_status := "success"; env_data := data;
                               env_message := None; env_code := None |} |}.

Definition errorResponse : FetchOutcome :=
  Responded {| ok := false; status := 402;
               body := Json {| env_status := "error"; env_data := PNull;
                               env_message := Some "No credits left";
                               env_code := Some "ERR_NO_CREDITS" |} |}.

(** An upstream that answers every call with one empty, successful list. *)
Definition quietEnv : Env :=
  {| clock := sampleClock;
     upstream := fun _ _ => successResponse (PZoneVessels []) |}.

(** An upstream that refuses every call with an error envelope. *)
Definition failingEnv : Env :=
  {| clock := sampleClock;
     upstream := fun _ _ => errorResponse |}.

(** [MST_MAX_RESULTS=1]. *)
Definition capOneConfig : Config :=
  {| MST_API_KEY := Some "secret";
     DEFAULT_CACHE_MS := 30000;
     DEFAULT_MINUTES_BACK := 60;
     MAX_LAT_SPAN := 10;
     MAX_LON_SPAN := 25;
     MAX_RESULTS := 1;
     MAX_PORT_VESSELS := 40 |}.

(** A clock that reads [0], [1], [2], ... *)
Definition countingEnv : Env :=
  {| clock := fun n => Z.of_nat n;
     upstream := fun _ _ => successResponse (PZoneVessels []) |}.

(** An upstream record that carries no identifier, name or time stamp. *)
Definition anonymousVessel : MstZoneVessel :=
  {| zv_vessel_name := ""; zv_mmsi := None; zv_imo := None; zv_vtype := None;
     zv_lat := 36; zv_lng := 14; zv_course := None; zv_speed := None;
     zv_nav_status := None; zv_received := "" |}.

Definition namedVessel : MstZoneVessel :=
  {| zv_vessel_name := "COSTA FAVOLOSA"; zv_mmsi := Some 247311100; zv_imo := None;
     zv_vtype := Some 6; zv_lat := 36; zv_lng := 14; zv_course := None;
     zv_speed := None; zv_nav_status := None; zv_received := "2024-01-01 10:00" |}.

Definition otherVessel : MstZoneVessel :=
  {| zv_vessel_name := "EVER GIVEN"; zv_mmsi := Some 353136000; zv_imo := Some 9811000;
     zv_vtype := Some 7; zv_lat := 37; zv_lng := 15; zv_course := None;
     zv_speed := None; zv_nav_status := None; zv_received := "2024-01-01 10:05" |}.

(** An upstream whose every zone holds the same two vessels, one of them
    reported twice. *)
Definition crowdedEnv : Env :=
  {| clock := sampleClock;
     upstream := fun _ _ =>
       successResponse (PZoneVessels [namedVessel; otherVessel; namedVessel]) |}.

Definition samplePortVessel : MstPortVessel :=
  {| pv_mmsi := Some 247311100; pv_imo := None; pv_name := "COSTA FAVOLOSA";
     pv_arrived := None; pv_vtype := Some 6; pv_vessel_type := Some "Passenger";
     pv_flag := Some "IT"; pv_gt := None; pv_dwt := None; pv_built := None;
     pv_length := None; pv_width := None |}.

(** Whether a record carries anything [buildShipId] can build an id from
    without reading the clock. *)
Definition identified (mmsi_ imo_ : option Z) (name_ timestamp_ : string) : bool :=
  match truthyZ mmsi_, truthyZ imo_ with
  | None, None => nonEmpty name_ || nonEmpty timestamp_
  | _, _ => true
  end.

(* ===================================================================== *)
(** ** Vocabulary of the statements *)
(* ===================================================================== *)

(** [m] takes every world to one related to it by [R], whatever its
    outcome. *)
Definition preserves (R : World -> World -> Prop) {A : Type} (m : M A) : Prop :=
  forall w, R w (snd (m w)).

(** The ghost log of zone queries is untouched. *)
Definition same_zoneQueries (w w' : World) : Prop := zoneQueries w' = zoneQueries w.

(** Nothing but the count of clock readings may differ. *)
Definition same_but_ticks (w w' : World) : Prop :=
  cache w' = cache w /\ fetched w' = fetched w /\ zoneQueries w' = zoneQueries w.

(** The log of upstream calls only grows. *)
Definition fetched_grows (w w' : World) : Prop :=
  exists calls, fetched w' = (fetched w ++ calls)%list.

(** The running map of an area search holds each key once, and each record
    under its own id. *)
Definition wellKeyed (dedup : list (string * ShipSummary)) : Prop :=
  NoDup (map fst dedup) /\ Forall (fun entry => fst entry = id (snd entry)) dedup.

(** The world after one more reading of the clock. *)
Definition tick (w : World) : World :=
  {| cache := cache w; ticks := S (ticks w);
     fetched := fetched w; zoneQueries := zoneQueries w |}.

(** The world after one more upstream call. *)
Definition called (call : UpstreamCall) (w : World) : World :=
  {| cache := cache w; ticks := ticks w;
     fetched := (fetched w ++ [call])%list; zoneQueries := zoneQueries w |}.

(** The world after one more zone query. *)
Definition queried (q : ZoneQuery) (w : World) : World :=
  {| cache := cache w; ticks := ticks w;
     fetched := fetched w; zoneQueries := (zoneQueries w ++ [q])%list |}.

(** An upstream protocol failure: a body that is no JSON, or an envelope
    whose status is not "success"; with the error [request] makes of it. *)
Definition protocolFailure (path : string) (response : HttpResponse) : option Error :=
  match body response with
  | Malformed why => Some (ParseFailed path why)
  | JsonNull => None
  | Json envelope =>
      if String.eqb (env_status envelope) "success" then None
      else Some (RequestFailed
                   match env_code envelope with
                   | Some c => inl c
                   | None => inr (status response)
                   end
                   match env_message envelope with
                   | Some m => m
                   | None => "Unknown error"
                   end)
  end.

(** The cache key and the upstream call of a request. *)
Definition requestKey (rt : Runtime) (path : string) (params : list (string * PVal)) : string :=
  buildCacheKey path (sanitizeParams rt params).

Definition requestCall (rt : Runtime) (path : string) (params : list (string * PVal))
  : UpstreamCall :=
  {| call_path := path; call_query := sanitizeParams rt params |}.

(** A usable credential is configured. *)
Definition hasApiKey (cfg : Config) : bool :=
  match MST_API_KEY cfg with
  | Some key => nonEmpty key
  | None => false
  end.

(* END OF VOCABULARY *)

(* ===================================================================== *)
(** ** More of the client, and settings for further examples *)
(* ===================================================================== *)

(** Truthiness of an optional parameter value. *)
Definition pval_truthy (v : option PVal) : bool :=
  match v with
  | Some (PStr s) => nonEmpty s
  | Some (PNum n) => num_truthy n
  | _ => false
  end.

(** [getVesselStatus]: the parameters are the caller's object; the payload
    is what the upstream sent.  Never cached. *)
Definition getVesselStatus (rt : Runtime) (cfg : Config) (env : Env)
  (params : list (string * PVal)) : M Payload :=
  if negb (pval_truthy (lookupParam "mmsi" params))
     && negb (pval_truthy (lookupParam "imo" params))
  then throw MissingVesselIdentifier
  else request rt cfg env "vessel" params 0.

(** A ship identified by its MMSI, as those of port mode are. *)
Definition byMmsi (ship : ShipSummary) : Prop :=
  id ship = mmsi ship /\ nonEmpty (mmsi ship) = true.

(** No [MST_API_KEY]. *)
Definition noKeyConfig : Config :=
  {| MST_API_KEY := None;
     DEFAULT_CACHE_MS := 30000;
     DEFAULT_MINUTES_BACK := 60;
     MAX_LAT_SPAN := 10;
     MAX_LON_SPAN := 25;
     MAX_RESULTS := 200;
     MAX_PORT_VESSELS := 40 |}.

Definition hamburgParams : list (string * PVal) := [("name", PStr "Hamburg")].

(** An upstream that answers its first call with one vessel and refuses
    every later call. *)
Definition flakyEnv : Env :=
  {| clock := sampleClock;
     upstream := fun n _ =>
       match n with
       | O => successResponse (PZoneVessels [namedVessel])
       | S _ => errorResponse
       end |}.

(** A world whose cache holds one answer to the Hamburg port search,
    expiring at the given time. *)
Definition cachedWorld (expiry : Z) : World :=
  {| cache := {[ buildCacheKey "port/search" (sanitizeParams sampleRuntime hamburgParams)
                 := {| expiresAt := expiry; payload := PPorts [] |} ]};
     ticks := 0; fetched := []; zoneQueries := [] |}.

(** A box with finite corners, south-west first, inside the valid
    latitudes and longitudes. *)
Definition wellFormedBox (box : BoundingBox) : Prop :=
  exists a b c d,
    box = {| minLat := Fin a; maxLat := Fin b; minLon := Fin c; maxLon := Fin d |}
    /\ (-90 <= a)%Q /\ (a <= b)%Q /\ (b <= 90)%Q
    /\ (-180 <= c)%Q /\ (c <= d)%Q /\ (d <= 180)%Q.

(** A ship with a position to plot. *)
Definition plottable (ship : ShipSummary) : Prop :=
  Number_isNaN (lat ship) = false /\ Number_isNaN (lon ship) = false.

(** A box whose four corners are numbers. *)
Definition finiteBox (box : BoundingBox) : Prop :=
  exists a b c d,
    box = {| minLat := Fin a; maxLat := Fin b; minLon := Fin c; maxLon := Fin d |}.

(** [m] makes at most [n] upstream calls, whatever its outcome. *)
Definition callsWithin (n : nat) {A : Type} (m : M A) : Prop :=
  forall w, exists calls,
    fetched (snd (m w)) = (fetched w ++ calls)%list /\ (length calls <= n)%nat.

(** The errors of the input checks, thrown before anything is asked of the
    upstream. *)
Definition validationError (e : Error) : bool :=
  match e with
  | MissingVesselIdentifier | MissingPortReference | MissingBulkIdentifiers
  | BoxTooLarge _ _ => true
  | _ => false
  end.

(** The last status record of a bulk answer that carries the MMSI [m]. *)
Definition statusOf (m : Z) (statuses : list MstZoneVessel) : option MstZoneVessel :=
  last (filter (fun status_ => truthyZ (zv_mmsi status_) = Some m) statuses).

(** A later report of [namedVessel], further north. *)
Definition movedVessel : MstZoneVessel :=
  {| zv_vessel_name := "COSTA FAVOLOSA"; zv_mmsi := Some 247311100; zv_imo := None;
     zv_vtype := Some 6; zv_lat := 40; zv_lng := 14; zv_course := None;
     zv_speed := None; zv_nav_status := None; zv_received := "2024-01-01 11:00" |}.

Definition hamburgReference : PortReference :=
  {| portId := Some (num_of_Z 1234); unloco := Some "DEHAM"; ref_name := Some "Hamburg" |}.

(* ===================================================================== *)
(** ** The routes ([classes/server.ts]) *)
(* ===================================================================== *)

(** What a route puts in the [error] field of its reply: a text of its
    own, or the message of the error it caught. *)
Inductive RouteError : Type :=
| NotNumeric                   (* lat, lng and distance must be numeric *)
| UriMalformed                 (* the URIError of decodeURIComponent *)
| Thrown (e : Error).

(** The reply of a route: [res.json(result)], or
    [res.status(code).json({ error, ... })]. *)
Inductive Reply (A : Type) : Type :=
| Sent (result : A)
| Failed (code : Z) (error : RouteError).
Arguments Sent {A} result.
Arguments Failed {A} code error.

(** [req.query.minutesBack ? Number(req.query.minutesBack) : undefined],
    for a parameter given at most once. *)
Definition minutesBackOf (rt : Runtime) (query : option string) : option num :=
  match query with
  | Some text => if nonEmpty text then Some (Number_of_string rt text) else None
  | None => None
  end.


(** [GET /legacy/getVesselsInArea/:area]; [decodeURIComponent] gives
    [None] where it throws. *)
Definition areaRoute (decodeURIComponent : string -> option string)
  (rt : Runtime) (cfg : Config) (env : Env)
  (areaParam : string) (query : option string) : M (Reply (list ShipSummary)) :=
  match decodeURIComponent areaParam with
  | None => ret (Failed 400 UriMalformed)
  | Some areaExpression =>
      let minutesBack := minutesBackOf rt query in
      catch (result <- fetchVesselsInArea rt cfg env areaExpression minutesBack ;;
             ret (Sent result))
            (fun error => ret (Failed 400 (Thrown error)))
  end.


(* ===================================================================== *)
(** * Properties *)
(* ===================================================================== *)

(** ** Numbers *)

Lemma Qle_bool_false (x y : Q) : Qle_bool x y = false -> (y < x)%Q.
Proof.
  intros H. apply Qnot_le_lt. intros Hle.
  apply Qle_bool_iff in Hle. congruence.
Qed.

Lemma num_gtb_spec (x y : Q) : num_gtb (Fin x) (Fin y) = true <-> (y < x)%Q.
Proof.
  unfold num_gtb. destruct (Qle_bool x y) eqn:E; simpl.
  - apply Qle_bool_iff in E. split; [discriminate | intros H; exfalso; lra].
  - apply Qle_bool_false in E. split; auto.
Qed.

Lemma Math_max_fin (x y : Q) :
  exists r, Math_max (Fin x) (Fin y) = Fin r /\ (x <= r)%Q /\ (y <= r)%Q
            /\ (r = x \/ r = y).
Proof.
  unfold Math_max. destruct (Qle_bool x y) eqn:E.
  - apply Qle_bool_iff in E. exists y. repeat split; auto; lra.
  - apply Qle_bool_false in E. exists x. repeat split; auto; lra.
Qed.

Lemma Math_min_fin (x y : Q) :
  exists r, Math_min (Fin x) (Fin y) = Fin r /\ (r <= x)%Q /\ (r <= y)%Q
            /\ (r = x \/ r = y).
Proof.
  unfold Math_min. destruct (Qle_bool x y) eqn:E.
  - apply Qle_bool_iff in E. exists x. repeat split; auto; lra.
  - apply Qle_bool_false in E. exists y. repeat split; auto; lra.
Qed.

(** [clampNumber] lands between its bounds, and is the value itself, the
    lower or the upper bound. *)
Lemma clampNumber_range (d lo hi : Q) :
  (lo <= hi)%Q ->
  exists r, clampNumber (Fin d) (Fin lo) (Fin hi) = Fin r
            /\ (lo <= r)%Q /\ (r <= hi)%Q /\ (r = d \/ r = lo \/ r = hi).
Proof.
  intros Hb. unfold clampNumber.
  destruct (Math_max_fin d lo) as (m & -> & Hm1 & Hm2 & Hm).
  destruct (Math_min_fin m hi) as (r & -> & Hr1 & Hr2 & Hr).
  exists r. split; [reflexivity |].
  destruct Hr as [-> | ->]; destruct Hm as [-> | ->];
    repeat split; auto; try lra.
Qed.

Lemma clampNumber_above (d lo hi : Q) :
  (lo <= hi)%Q -> (hi < d)%Q -> clampNumber (Fin d) (Fin lo) (Fin hi) = Fin hi.
Proof.
  intros Hb Hd. unfold clampNumber, Math_max.
  destruct (Qle_bool d lo) eqn:E1.
  - apply Qle_bool_iff in E1. lra.
  - unfold Math_min. destruct (Qle_bool d hi) eqn:E2; [| reflexivity].
    apply Qle_bool_iff in E2. lra.
Qed.

Lemma clampNumber_below (d lo hi : Q) :
  (lo <= hi)%Q -> (d < lo)%Q -> (lo == hi -> lo = hi)%Q ->
  clampNumber (Fin d) (Fin lo) (Fin hi) = Fin lo.
Proof.
  intros Hb Hd Heq. unfold clampNumber, Math_max.
  destruct (Qle_bool d lo) eqn:E1.
  - unfold Math_min. destruct (Qle_bool lo hi) eqn:E2; [reflexivity |].
    apply Qle_bool_false in E2. lra.
  - apply Qle_bool_false in E1. lra.
Qed.

(** Clamping twice is clamping once. *)
Lemma clampNumber_idempotent (a : num) (lo hi : Q) :
  (lo < hi)%Q ->
  clampNumber (clampNumber a (Fin lo) (Fin hi)) (Fin lo) (Fin hi)
  = clampNumber a (Fin lo) (Fin hi).
Proof.
  intros Hb. destruct a as [| d]; [reflexivity |].
  destruct (clampNumber_range d lo hi) as (r & Hr & H1 & H2 & Hcase); [lra |].
  rewrite Hr. destruct Hcase as [-> | [-> | ->]].
  - exact Hr.
  - unfold clampNumber, Math_max, Math_min.
    destruct (Qle_bool lo lo); destruct (Qle_bool lo hi) eqn:E; try reflexivity;
      apply Qle_bool_false in E; lra.
  - unfold clampNumber, Math_max, Math_min.
    destruct (Qle_bool hi lo) eqn:E1; [apply Qle_bool_iff in E1; lra |].
    destruct (Qle_bool hi hi) eqn:E2; [reflexivity |].
    apply Qle_bool_false in E2. lra.
Qed.

(** ** Frames: what a computation leaves alone *)

Section Frames.
Context (R : World -> World -> Prop) `{!Reflexive R} `{!Transitive R}.

Lemma preserves_ret {A : Type} (a : A) : preserves R (ret a).
Proof. intros w. apply reflexivity. Qed.

Lemma preserves_throw {A : Type} (e : Error) : preserves R (@throw A e).
Proof. intros w. apply reflexivity. Qed.

Lemma preserves_lift {A : Type} (o : Outcome A) : preserves R (lift o).
Proof. intros w. apply reflexivity. Qed.

Lemma preserves_bind {A B : Type} (m : M A) (k : A -> M B) :
  preserves R m -> (forall a, preserves R (k a)) -> preserves R (bind m k).
Proof.
  intros Hm Hk w. unfold bind. specialize (Hm w).
  destruct (m w) as [[a | e] w1]; simpl in *; [| exact Hm].
  etransitivity; [exact Hm | apply Hk].
Qed.

Lemma preserves_catch {A : Type} (m : M A) (h : Error -> M A) :
  preserves R m -> (forall e, preserves R (h e)) -> preserves R (catch m h).
Proof.
  intros Hm Hh w. unfold catch. specialize (Hm w).
  destruct (m w) as [[a | e] w1]; simpl in *; [exact Hm |].
  etransitivity; [exact Hm | apply Hh].
Qed.

Lemma preserves_mapM {A B : Type} (f : A -> M B) (l : list A) :
  (forall a, preserves R (f a)) -> preserves R (mapM f l).
Proof.
  intros Hf. induction l as [| x rest IH]; simpl.
  - apply preserves_ret.
  - apply preserves_bind; [apply Hf |]. intros y.
    apply preserves_bind; [exact IH |]. intros ys. apply preserves_ret.
Qed.
End Frames.

#[global] Instance same_zoneQueries_refl : Reflexive same_zoneQueries.
Proof. intros w. reflexivity. Qed.

#[global] Instance same_zoneQueries_trans : Transitive same_zoneQueries.
Proof. intros a b c H1 H2. unfold same_zoneQueries in *. congruence. Qed.

#[global] Instance same_but_ticks_refl : Reflexive same_but_ticks.
Proof. intros w. repeat split. Qed.

#[global] Instance same_but_ticks_trans : Transitive same_but_ticks.
Proof. intros a b c (? & ? & ?) (? & ? & ?). repeat split; congruence. Qed.

#[global] Instance fetched_grows_refl : Reflexive fetched_grows.
Proof. intros w. exists []. symmetry. apply app_nil_r. Qed.

#[global] Instance fetched_grows_trans : Transitive fetched_grows.
Proof.
  intros a b c [l1 H1] [l2 H2]. exists (l1 ++ l2)%list.
  rewrite H2, H1. symmetry. apply app_assoc.
Qed.

Ltac frame_step :=
  first
    [ apply preserves_ret; typeclasses eauto
    | apply preserves_throw; typeclasses eauto
    | apply preserves_lift; typeclasses eauto
    | apply preserves_bind; [typeclasses eauto | | intros ?]
    | apply preserves_mapM; [typeclasses eauto | typeclasses eauto | intros ?]
    | match goal with
      | |- preserves _ (match ?x with _ => _ end) => destruct x
      | |- preserves _ (if ?x then _ else _) => destruct x
      end ].

Lemma Date_now_ticks (env : Env) : preserves same_but_ticks (Date_now env).
Proof. intros w. repeat split. Qed.

Lemma Date_now_zq (env : Env) : preserves same_zoneQueries (Date_now env).
Proof. intros w. reflexivity. Qed.

Lemma fetch_zq (env : Env) (call : UpstreamCall) : preserves same_zoneQueries (fetch env call).
Proof. intros w. unfold fetch. destruct (upstream _ _ _); reflexivity. Qed.

Lemma set_cache_zq (f : gmap string CacheEntry -> gmap string CacheEntry) :
  preserves same_zoneQueries (set_cache f).
Proof. intros w. reflexivity. Qed.

Lemma get_cache_zq : preserves same_zoneQueries get_cache.
Proof. intros w. reflexivity. Qed.

Lemma request_zq (rt : Runtime) (cfg : Config) (env : Env)
  (path : string) (params : list (string * PVal)) (ttl : Z) :
  preserves same_zoneQueries (request rt cfg env path params ttl).
Proof.
  unfold request, request_upstream, readCache, writeCache, apiKey.
  repeat (frame_step || apply Date_now_zq || apply fetch_zq
          || apply set_cache_zq || apply get_cache_zq).
Qed.

(** ** The ship normaliser *)

Lemma buildShipId_ticks (env : Env) (m i : option Z) (n t : string) :
  preserves same_but_ticks (buildShipId env m i n t).
Proof.
  unfold buildShipId. repeat (frame_step || apply Date_now_ticks).
Qed.

Lemma mapZoneVesselToShip_ticks (env : Env) (vessel : MstZoneVessel) :
  preserves same_but_ticks (mapZoneVesselToShip env vessel).
Proof.
  unfold mapZoneVesselToShip. repeat (frame_step || apply buildShipId_ticks).
Qed.

(** The id is never the outcome of a failure: [buildShipId] always returns. *)
Lemma buildShipId_returns (env : Env) (m i : option Z) (n t : string) (w : World) :
  exists id_ w', buildShipId env m i n t w = (Ok id_, w').
Proof.
  unfold buildShipId, bind, ret, Date_now.
  destruct (truthyZ m); [eauto |]. destruct (truthyZ i); [eauto |].
  destruct (nonEmpty _); eauto.
Qed.

Lemma mapZoneVesselToShip_returns (env : Env) (vessel : MstZoneVessel) (w : World) :
  exists ship w', mapZoneVesselToShip env vessel w = (Ok ship, w').
Proof.
  unfold mapZoneVesselToShip, bind.
  destruct (buildShipId_returns env (zv_mmsi vessel) (zv_imo vessel)
              (zv_vessel_name vessel) (zv_received vessel) w) as (i & w' & ->).
  unfold ret. eauto.
Qed.

(** With something to build the id from, [buildShipId] reads no clock. *)
Lemma buildShipId_identified (env : Env) (m i : option Z) (n t : string) (w : World) :
  identified m i n t = true ->
  buildShipId env m i n t w
  = (Ok match truthyZ m, truthyZ i with
        | Some z, _ => String_of_Z z
        | None, Some z => String_of_Z z
        | None, None =>
            join "-" (filter (fun part => nonEmpty part = true) [n; t])
        end, w).
Proof.
  unfold identified, buildShipId, ret.
  destruct (truthyZ m); [reflexivity |]. destruct (truthyZ i); [reflexivity |].
  intros H.
  assert (nonEmpty (join "-" (filter (fun part => nonEmpty part = true) [n; t])) = true) as ->;
    [| reflexivity].
  destruct n as [| c n]; destruct t as [| c' t]; simpl in *; try reflexivity.
  discriminate.
Qed.

Lemma mapZoneVesselToShip_pure (vessel : MstZoneVessel) :
  identified (zv_mmsi vessel) (zv_imo vessel)
    (zv_vessel_name vessel) (zv_received vessel) = true ->
  exists ship, forall env w, mapZoneVesselToShip env vessel w = (Ok ship, w).
Proof.
  intros H. eexists. intros env w. unfold mapZoneVesselToShip, bind.
  rewrite (buildShipId_identified env _ _ _ _ w H). unfold ret. reflexivity.
Qed.

Lemma mapPortVesselToShip_pure (vessel : MstPortVessel) :
  identified (pv_mmsi vessel) (pv_imo vessel) (pv_name vessel)
    match pv_arrived vessel with Some a => a | None => "" end = true ->
  exists ship, forall env w, mapPortVesselToShip env vessel w = (Ok ship, w).
Proof.
  intros H. eexists. intros env w. unfold mapPortVesselToShip, bind.
  rewrite (buildShipId_identified env _ _ _ _ w H). unfold ret. reflexivity.
Qed.

Lemma mapPortVesselToShip_returns (env : Env) (vessel : MstPortVessel) (w : World) :
  exists ship w', mapPortVesselToShip env vessel w = (Ok ship, w').
Proof.
  unfold mapPortVesselToShip, bind.
  destruct (buildShipId_returns env (pv_mmsi vessel) (pv_imo vessel) (pv_name vessel)
              match pv_arrived vessel with Some a => a | None => "" end w)
    as (i & w' & ->).
  unfold ret. eauto.
Qed.

Lemma mapPortVesselToShip_ticks (env : Env) (vessel : MstPortVessel) :
  preserves same_but_ticks (mapPortVesselToShip env vessel).
Proof.
  unfold mapPortVesselToShip. repeat (frame_step || apply buildShipId_ticks).
Qed.

(** C9 as stated fails: the same record, mapped twice in a row, gets the ids
    [ship-0] and [ship-1], one per clock reading. *)
Lemma anonymous_vessel_ids_differ :
  exists s0 w0 s1 w1,
    mapZoneVesselToShip countingEnv anonymousVessel emptyWorld = (Ok s0, w0)
    /\ mapZoneVesselToShip countingEnv anonymousVessel w0 = (Ok s1, w1)
    /\ id s0 = "ship-0" /\ id s1 = "ship-1" /\ s0 <> s1.
Proof.
  do 4 eexists. repeat split; try reflexivity. discriminate.
Qed.

(** C9 (amended). Both mappers are total: on every upstream record they
    return a ship and touch nothing but the count of clock readings.  On a
    record that carries a non-zero mmsi, a non-zero imo, a non-empty name
    or a non-empty time stamp they are pure and deterministic: the same
    ship, id included, in every world and under every clock, and the world
    is left as it was.  (A record with none of these gets the id "ship-"
    followed by the clock reading.) *)
Theorem ship_normalizer_pure_when_identified :
  forall (vessel : MstZoneVessel) (portVessel : MstPortVessel),
    (forall env w, exists ship w',
        mapZoneVesselToShip env vessel w = (Ok ship, w') /\ same_but_ticks w w')
    /\ (forall env w, exists ship w',
        mapPortVesselToShip env portVessel w = (Ok ship, w') /\ same_but_ticks w w')
    /\ (identified (zv_mmsi vessel) (zv_imo vessel)
          (zv_vessel_name vessel) (zv_received vessel) = true ->
        exists ship, forall env w, mapZoneVesselToShip env vessel w = (Ok ship, w))
    /\ (identified (pv_mmsi portVessel) (pv_imo portVessel) (pv_name portVessel)
          match pv_arrived portVessel with Some a => a | None => "" end = true ->
        exists ship, forall env w, mapPortVesselToShip env portVessel w = (Ok ship, w)).
Proof.
  intros vessel portVessel. repeat split.
  - intros env w.
    destruct (mapZoneVesselToShip_returns env vessel w) as (ship & w' & H).
    exists ship, w'. split; [exact H |].
    pose proof (mapZoneVesselToShip_ticks env vessel w) as Hf.
    rewrite H in Hf. exact Hf.
  - intros env w.
    destruct (mapPortVesselToShip_returns env portVessel w) as (ship & w' & H).
    exists ship, w'. split; [exact H |].
    pose proof (mapPortVesselToShip_ticks env portVessel w) as Hf.
    rewrite H in Hf. exact Hf.
  - apply mapZoneVesselToShip_pure.
  - apply mapPortVesselToShip_pure.
Qed.

(** ** Bounding boxes *)

Lemma normalizeBox_rejects (cfg : Config) (box : BoundingBox) :
  num_gtb (latSpan box) (MAX_LAT_SPAN cfg) = true
  \/ num_gtb (lonSpan box) (MAX_LON_SPAN cfg) = true ->
  normalizeBox cfg box = Throw (BoxTooLarge (latSpan box) (lonSpan box)).
Proof.
  intros H. unfold normalizeBox.
  assert (num_gtb (latSpan box) (MAX_LAT_SPAN cfg)
          || num_gtb (lonSpan box) (MAX_LON_SPAN cfg) = true) as ->; [| reflexivity].
  apply orb_true_iff. exact H.
Qed.

Lemma normalizeBox_throws_only_BoxTooLarge (cfg : Config) (box : BoundingBox) (e : Error) :
  normalizeBox cfg box = Throw e -> e = BoxTooLarge (latSpan box) (lonSpan box).
Proof.
  unfold normalizeBox. destruct (_ || _); [| discriminate]. congruence.
Qed.

(** One box too large among them, and the whole list is refused. *)
Lemma mapOutcome_normalizeBox_rejects (cfg : Config) (boxes : list BoundingBox)
  (box : BoundingBox) :
  box ∈ boxes ->
  num_gtb (latSpan box) (MAX_LAT_SPAN cfg) = true
  \/ num_gtb (lonSpan box) (MAX_LON_SPAN cfg) = true ->
  exists culprit,
    culprit ∈ boxes
    /\ mapOutcome (normalizeBox cfg) boxes
       = Throw (BoxTooLarge (latSpan culprit) (lonSpan culprit)).
Proof.
  intros Hin Hbig. induction boxes as [| b rest IH]; [inversion Hin |].
  simpl. destruct (normalizeBox cfg b) as [ok_ | e] eqn:E.
  - assert (box ∈ rest) as Hrest.
    { apply elem_of_cons in Hin as [-> | Hin]; [| exact Hin].
      rewrite (normalizeBox_rejects cfg b Hbig) in E. discriminate. }
    destruct (IH Hrest) as (culprit & Hc & ->).
    exists culprit. split; [apply elem_of_cons; auto | reflexivity].
  - apply normalizeBox_throws_only_BoxTooLarge in E as ->.
    exists b. split; [apply elem_of_cons; auto | reflexivity].
Qed.

Lemma areaTokens_empty : areaTokens "" = [].
Proof. reflexivity. Qed.

(** C2. An area expression with a token that parses to a box too tall or
    too wide makes [fetchVesselsInArea] fail with the error that names the
    spans, and the world is left as it was: no upstream call is issued
    (nor any zone query, cache access or clock reading). *)
Theorem oversized_box_rejected_before_any_call :
  forall (rt : Runtime) (cfg : Config) (env : Env) (expression : string)
         (minutesBack : option num) (token : string) (box : BoundingBox) (w : World),
    token ∈ areaTokens expression ->
    parseBoundingBoxToken rt token = Some box ->
    num_gtb (latSpan box) (MAX_LAT_SPAN cfg) = true
    \/ num_gtb (lonSpan box) (MAX_LON_SPAN cfg) = true ->
    exists latSpan_ lonSpan_,
      fetchVesselsInArea rt cfg env expression minutesBack w
      = (Throw (BoxTooLarge latSpan_ lonSpan_), w).
Proof.
  intros rt cfg env expression minutesBack token box w Htok Hparse Hbig.
  assert (box ∈ omap (parseBoundingBoxToken rt) (areaTokens expression)) as Hbox.
  { apply list_elem_of_omap. exists token. split; assumption. }
  destruct (mapOutcome_normalizeBox_rejects cfg _ box Hbox Hbig) as (culprit & _ & Hthrow).
  exists (latSpan culprit), (lonSpan culprit).
  unfold fetchVesselsInArea, bind, lift, tokenizeAreaExpression.
  destruct expression as [| c rest].
  - rewrite areaTokens_empty in Htok. inversion Htok.
  - simpl nonEmpty. simpl negb. cbv iota. rewrite Hthrow. reflexivity.
Qed.

(** [fetchVesselsInArea] on a box twenty degrees tall, under the default
    spans of ten by twenty-five. *)
Lemma oversized_box_rejected_witness :
  exists latSpan_ lonSpan_,
    fetchVesselsInArea sampleRuntime defaultConfig quietEnv "bbox:0|0|20|5" None emptyWorld
    = (Throw (BoxTooLarge latSpan_ lonSpan_), emptyWorld).
Proof.
  apply (oversized_box_rejected_before_any_call sampleRuntime defaultConfig quietEnv
           "bbox:0|0|20|5" None "bbox:0|0|20|5"
           {| minLat := 0; minLon := 0; maxLat := 20; maxLon := 5 |} emptyWorld).
  - vm_compute. apply list_elem_of_here.
  - reflexivity.
  - left. reflexivity.
Defined.

(** ** Near-me search *)

Lemma ticks_then_zq {A : Type} (m : M A) :
  preserves same_but_ticks m -> preserves same_zoneQueries m.
Proof. intros H w. destruct (H w) as (_ & _ & Hz). exact Hz. Qed.

Lemma asZoneVessels_zq (p : Payload) : preserves same_zoneQueries (asZoneVessels p).
Proof. unfold asZoneVessels. repeat frame_step. Qed.

Lemma getVesselsInZone_logs (rt : Runtime) (cfg : Config) (env : Env) (q : ZoneQuery) (w : World) :
  zoneQueries (snd (getVesselsInZone rt cfg env q w)) = (zoneQueries w ++ [q])%list.
Proof.
  unfold getVesselsInZone.
  assert (preserves same_zoneQueries
            (data <- request rt cfg env "vessel/zone" (zoneParams q) 300000 ;;
             asZoneVessels data)) as H.
  { repeat (apply request_zq || apply asZoneVessels_zq || frame_step). }
  unfold bind at 1. unfold log_zone_query at 1. cbv beta iota.
  rewrite (H _). reflexivity.
Qed.

Lemma fetchVesselsNearMe_logs (rt : Runtime) (cfg : Config) (env : Env)
  (lat_ lon_ d : num) (mb : option num) (w : World) :
  zoneQueries (snd (fetchVesselsNearMe rt cfg env lat_ lon_ d mb w))
  = (zoneQueries w ++ [nearMeQuery rt cfg lat_ lon_ d mb])%list.
Proof.
  unfold fetchVesselsNearMe. unfold bind at 1.
  pose proof (getVesselsInZone_logs rt cfg env (nearMeQuery rt cfg lat_ lon_ d mb) w) as H.
  destruct (getVesselsInZone rt cfg env _ w) as [[vessels | e] w1]; simpl in *; [| exact H].
  assert (preserves same_zoneQueries
            (mapped <- mapM (mapZoneVesselToShip env) vessels ;; ret (mapZoneResults cfg mapped))) as Hp.
  { repeat ((apply ticks_then_zq; apply mapZoneVesselToShip_ticks) || frame_step). }
  rewrite (Hp w1). exact H.
Qed.

Lemma num_div_60 (r : Q) : num_div (Fin r) 60 = Fin (Qred (r / 60)).
Proof. reflexivity. Qed.







Lemma nearMeQuery_clamped (rt : Runtime) (cfg : Config)
  (lat_ lon_ d : num) (mb : option num) :
  nearMeQuery rt cfg lat_ lon_ (clampNumber d 1 50) mb = nearMeQuery rt cfg lat_ lon_ d mb.
Proof.
  unfold nearMeQuery.
  change (num_of_Z 1) with (Fin 1). change (num_of_Z 50) with (Fin 50).
  rewrite clampNumber_idempotent by lra. reflexivity.
Qed.



(** C10. The radius of a near-me query is clamped into [1, 50] before the
    box is derived, and nothing tells the caller: the call with radius [d]
    is the very computation of the call with the clamped radius, so one
    above 50 nautical miles is answered as 50 and one below 1 as 1, with
    the same outcome, error or not. *)
Theorem near_me_radius_silently_clamped :
  forall (rt : Runtime) (cfg : Config) (env : Env) (lat_ lon_ : num) (d : Q)
         (mb : option num),
    (exists r, clampNumber (Fin d) 1 50 = Fin r
               /\ (1 <= r <= 50)%Q /\ (r = d \/ r = 1%Q \/ r = 50%Q))
    /\ fetchVesselsNearMe rt cfg env lat_ lon_ (Fin d) mb
       = fetchVesselsNearMe rt cfg env lat_ lon_ (clampNumber (Fin d) 1 50) mb
    /\ ((50 < d)%Q ->
        fetchVesselsNearMe rt cfg env lat_ lon_ (Fin d) mb
        = fetchVesselsNearMe rt cfg env lat_ lon_ 50 mb)
    /\ ((d < 1)%Q ->
        fetchVesselsNearMe rt cfg env lat_ lon_ (Fin d) mb
        = fetchVesselsNearMe rt cfg env lat_ lon_ 1 mb).
Proof.
  intros rt cfg env lat_ lon_ d mb.
  assert (fetchVesselsNearMe rt cfg env lat_ lon_ (Fin d) mb
          = fetchVesselsNearMe rt cfg env lat_ lon_ (clampNumber (Fin d) 1 50) mb) as Hclamp.
  { unfold fetchVesselsNearMe. rewrite nearMeQuery_clamped. reflexivity. }
  split; [| split; [exact Hclamp | split]].
  - destruct (clampNumber_range d 1 50) as (r & Hr & Hlo & Hhi & Hcase); [lra |].
    exists r. auto.
  - intros Hd. rewrite Hclamp.
    change (num_of_Z 1) with (Fin 1). change (num_of_Z 50) with (Fin 50).
    rewrite clampNumber_above by lra. reflexivity.
  - intros Hd. rewrite Hclamp.
    change (num_of_Z 1) with (Fin 1). change (num_of_Z 50) with (Fin 50).
    rewrite clampNumber_below; [reflexivity | lra | lra | lra].
Qed.

(** A radius of 80 nautical miles is searched as 50. *)
Lemma near_me_radius_witness :
  fetchVesselsNearMe sampleRuntime defaultConfig quietEnv 36 14 (Fin 80) None
  = fetchVesselsNearMe sampleRuntime defaultConfig quietEnv 36 14 50 None.
Proof.
  apply (proj1 (proj2 (proj2 (near_me_radius_silently_clamped
                                sampleRuntime defaultConfig quietEnv 36 14 80 None)))).
  reflexivity.
Defined.

(** ** Area search: the running map *)

Lemma has_true_iff (key : string) (dedup : list (string * ShipSummary)) :
  has key dedup = true <-> key ∈ map fst dedup.
Proof.
  unfold has. induction dedup as [| [k s] rest IH]; simpl.
  - split; [discriminate | intros H; inversion H].
  - rewrite orb_true_iff, IH, elem_of_cons, String.eqb_eq. split.
    + intros [-> | H]; auto.
    + intros [-> | H]; auto.
Qed.

Lemma has_false_iff (key : string) (dedup : list (string * ShipSummary)) :
  has key dedup = false <-> key ∉ map fst dedup.
Proof.
  rewrite <- has_true_iff. destruct (has key dedup); split; congruence.
Qed.

Lemma wellKeyed_nil : wellKeyed [].
Proof. split; constructor. Qed.

Lemma wellKeyed_insert (dedup : list (string * ShipSummary)) (mapped : ShipSummary) :
  wellKeyed dedup ->
  wellKeyed (if has (id mapped) dedup then dedup
             else (dedup ++ [(id mapped, mapped)])%list).
Proof.
  intros [Hnd Hid]. destruct (has (id mapped) dedup) eqn:E; [split; assumption |].
  apply has_false_iff in E. split.
  - rewrite map_app. simpl. apply NoDup_app. split; [exact Hnd | split].
    + intros k Hk Hk'. apply list_elem_of_singleton in Hk'. subst k. contradiction.
    + apply NoDup_singleton.
  - apply Forall_app. split; [exact Hid |]. constructor; [reflexivity | constructor].
Qed.

(** [vessels.forEach] of the area search always runs to its end; it keeps
    what the map holds, in place, and adds behind it. *)
Lemma mergeVessels_spec (env : Env) (vessels : list MstZoneVessel) :
  forall (dedup : list (string * ShipSummary)) (w : World),
    exists added w',
      mergeVessels env vessels dedup w = (Ok (dedup ++ added)%list, w')
      /\ same_but_ticks w w'
      /\ (wellKeyed dedup -> wellKeyed (dedup ++ added)%list).
Proof.
  induction vessels as [| vessel rest IH]; intros dedup w; simpl.
  - exists [], w. rewrite app_nil_r.
    split; [reflexivity | split; [reflexivity | auto]].
  - unfold bind at 1.
    destruct (mapZoneVesselToShip_returns env vessel w) as (mapped & w1 & Hmap).
    pose proof (mapZoneVesselToShip_ticks env vessel w) as Hframe.
    rewrite Hmap in *. simpl in Hframe.
    pose proof (wellKeyed_insert dedup mapped) as Hkeyed.
    destruct (has (id mapped) dedup).
    + destruct (IH dedup w1) as (added & w' & Hrun & Hticks & Hk).
      exists added, w'. split; [exact Hrun |].
      split; [etransitivity; eassumption | auto].
    + destruct (IH (dedup ++ [(id mapped, mapped)])%list w1)
        as (added & w' & Hrun & Hticks & Hk).
      exists ((id mapped, mapped) :: added), w'.
      replace (dedup ++ (id mapped, mapped) :: added)%list
        with ((dedup ++ [(id mapped, mapped)]) ++ added)%list
        by (rewrite <- app_assoc; reflexivity).
      split; [exact Hrun |]. split; [etransitivity; eassumption | auto].
Qed.

(** A run of the box loop that returns has kept the map it started from,
    in place, and added behind it. *)
Lemma areaLoop_spec (rt : Runtime) (cfg : Config) (env : Env) (mb : num)
  (boxes : list BoundingBox) :
  forall (dedup result : list (string * ShipSummary)) (w w' : World),
    areaLoop rt cfg env mb boxes dedup w = (Ok result, w') ->
    exists added,
      result = (dedup ++ added)%list /\ (wellKeyed dedup -> wellKeyed result).
Proof.
  induction boxes as [| box rest IH]; intros dedup result w w' Hrun; simpl in Hrun.
  - unfold ret in Hrun. inversion Hrun; subst. exists []. rewrite app_nil_r. auto.
  - unfold bind at 1 in Hrun.
    destruct (getVesselsInZone rt cfg env (boxQuery mb box) w) as [[vessels | e] w1];
      [| discriminate].
    unfold bind at 1 in Hrun.
    destruct (mergeVessels_spec env vessels dedup w1) as (added & w2 & Hm & _ & Hk).
    rewrite Hm in Hrun.
    destruct (MAX_RESULTS cfg <=? length (dedup ++ added))%nat.
    + unfold ret in Hrun. inversion Hrun; subst. exists added. auto.
    + destruct (IH _ _ _ _ Hrun) as (added' & -> & Hk').
      exists (added ++ added')%list. rewrite app_assoc. auto.
Qed.

(** The zone queries of a run of the box loop are those of a prefix of the
    boxes, in order, whatever its outcome. *)
Lemma areaLoop_logs (rt : Runtime) (cfg : Config) (env : Env) (mb : num)
  (boxes : list BoundingBox) :
  forall (dedup : list (string * ShipSummary)) (w : World),
    exists k,
      (k <= length boxes)%nat
      /\ zoneQueries (snd (areaLoop rt cfg env mb boxes dedup w))
         = (zoneQueries w ++ map (boxQuery mb) (firstn k boxes))%list.
Proof.
  induction boxes as [| box rest IH]; intros dedup w; simpl.
  - exists 0%nat. simpl. rewrite app_nil_r. auto.
  - unfold bind at 1.
    pose proof (getVesselsInZone_logs rt cfg env (boxQuery mb box) w) as Hlog.
    destruct (getVesselsInZone rt cfg env (boxQuery mb box) w) as [[vessels | e] w1];
      simpl in Hlog.
    + unfold bind at 1.
      destruct (mergeVessels_spec env vessels dedup w1) as (added & w2 & Hm & Ht & _).
      rewrite Hm. destruct Ht as (_ & _ & Hz).
      destruct (MAX_RESULTS cfg <=? length (dedup ++ added))%nat.
      * exists 1%nat. simpl. split; [lia |]. rewrite Hz, Hlog. reflexivity.
      * destruct (IH (dedup ++ added)%list w2) as (k & Hk & Hq).
        exists (S k). split; [simpl; lia |].
        rewrite Hq, Hz, Hlog. simpl. rewrite <- app_assoc. reflexivity.
    + exists 1%nat. simpl. split; [lia |]. exact Hlog.
Qed.

(** Once a non-empty run of boxes has filled the map to the cap, boxes
    that follow change nothing: the loop has stopped. *)
Lemma areaLoop_short_circuit (rt : Runtime) (cfg : Config) (env : Env) (mb : num)
  (pre post : list BoundingBox) :
  forall (dedup result : list (string * ShipSummary)) (w w' : World),
    pre <> [] ->
    areaLoop rt cfg env mb pre dedup w = (Ok result, w') ->
    (MAX_RESULTS cfg <= length result)%nat ->
    areaLoop rt cfg env mb (pre ++ post) dedup w = (Ok result, w').
Proof.
  induction pre as [| box rest IH]; intros dedup result w w' Hne Hrun Hcap;
    [congruence |].
  simpl in *. unfold bind at 1 in Hrun. unfold bind at 1.
  destruct (getVesselsInZone rt cfg env (boxQuery mb box) w) as [[vessels | e] w1];
    [| discriminate].
  unfold bind at 1 in Hrun. unfold bind at 1.
  destruct (mergeVessels env vessels dedup w1) as [[merged | e] w2]; [| discriminate].
  destruct (MAX_RESULTS cfg <=? length merged)%nat eqn:E; [exact Hrun |].
  destruct rest as [| box' rest'].
  - simpl in Hrun. unfold ret in Hrun. inversion Hrun; subst.
    apply Nat.leb_gt in E. lia.
  - apply IH; [discriminate | exact Hrun | exact Hcap].
Qed.

Lemma mapZoneResults_length (cfg : Config) (vessels : list ShipSummary) :
  (length (mapZoneResults cfg vessels) <= MAX_RESULTS cfg)%nat.
Proof. unfold mapZoneResults. apply firstn_le_length. Qed.

Lemma mapZoneResults_sublist (cfg : Config) (vessels : list ShipSummary) :
  mapZoneResults cfg vessels `sublist_of` vessels.
Proof.
  unfold mapZoneResults. etransitivity; [apply sublist_take | apply sublist_filter].
Qed.

Lemma wellKeyed_ids (dedup : list (string * ShipSummary)) :
  wellKeyed dedup -> NoDup (map id (map snd dedup)).
Proof.
  intros [Hnd Hid].
  replace (map id (map snd dedup)) with (map fst dedup); [exact Hnd |].
  induction Hid as [| [k s] rest Hk _ IH]; simpl; [reflexivity |].
  simpl in Hk. rewrite Hk. f_equal. apply IH. inversion Hnd; assumption.
Qed.

Lemma fetchVesselsInArea_inv (rt : Runtime) (cfg : Config) (env : Env)
  (expression : string) (mb : option num) (w w' : World) (result : list ShipSummary) :
  fetchVesselsInArea rt cfg env expression mb w = (Ok result, w') ->
  exists boxes dedup,
    tokenizeAreaExpression rt cfg expression = Ok boxes
    /\ areaLoop rt cfg env (formatMinutesBack cfg mb) boxes [] w = (Ok dedup, w')
    /\ result = mapZoneResults cfg (map snd dedup).
Proof.
  unfold fetchVesselsInArea, bind, lift, ret. intros H.
  destruct (tokenizeAreaExpression rt cfg expression) as [boxes | e]; [| discriminate].
  destruct (areaLoop rt cfg env (formatMinutesBack cfg mb) boxes [] w)
    as [[dedup | e] w1] eqn:Hloop; [| discriminate].
  inversion H; subst. exists boxes, dedup. repeat split; [exact Hloop].
Qed.

(** C3. The list an area search returns is never longer than the cap.  And
    once the boxes processed so far (at least one) have filled the running
    map to the cap, the search is over: with more boxes behind them it ends
    in the same world with the same list, and the zone queries it issued
    are queries of those first boxes only. *)
Theorem area_search_capped :
  forall (rt : Runtime) (cfg : Config) (env : Env) (expression : string)
         (mb : option num) (w : World),
    (forall result w',
        fetchVesselsInArea rt cfg env expression mb w = (Ok result, w') ->
        (length result <= MAX_RESULTS cfg)%nat)
    /\ (forall pre post dedup w',
        tokenizeAreaExpression rt cfg expression = Ok (pre ++ post)%list ->
        pre <> [] ->
        areaLoop rt cfg env (formatMinutesBack cfg mb) pre [] w = (Ok dedup, w') ->
        (MAX_RESULTS cfg <= length dedup)%nat ->
        fetchVesselsInArea rt cfg env expression mb w
        = (Ok (mapZoneResults cfg (map snd dedup)), w')
        /\ exists k,
            (k <= length pre)%nat
            /\ zoneQueries w'
               = (zoneQueries w
                  ++ map (boxQuery (formatMinutesBack cfg mb)) (firstn k pre))%list).
Proof.
  intros rt cfg env expression mb w. split.
  - intros result w' Hrun.
    destruct (fetchVesselsInArea_inv _ _ _ _ _ _ _ _ Hrun) as (boxes & dedup & _ & _ & ->).
    apply mapZoneResults_length.
  - intros pre post dedup w' Htok Hne Hpre Hcap. split.
    + unfold fetchVesselsInArea, bind, lift. rewrite Htok.
      rewrite (areaLoop_short_circuit rt cfg env _ pre post [] dedup w w' Hne Hpre Hcap).
      reflexivity.
    + destruct (areaLoop_logs rt cfg env (formatMinutesBack cfg mb) pre [] w) as (k & Hk & Hq).
      rewrite Hpre in Hq. exists k. auto.
Qed.

(** C4. The list an area search returns holds no id twice.  The first
    record seen for an id is the one kept: a record of a batch is stored
    only when its id is not in the running map, and whatever the map holds
    stays in it, in place, through every later batch and box. *)
Theorem area_search_deduplicated :
  forall (rt : Runtime) (cfg : Config) (env : Env),
    (forall expression mb w result w',
        fetchVesselsInArea rt cfg env expression mb w = (Ok result, w') ->
        NoDup (map id result))
    /\ (forall vessel dedup w,
        exists mapped w',
          mapZoneVesselToShip env vessel w = (Ok mapped, w')
          /\ mergeVessels env [vessel] dedup w
             = (Ok (if has (id mapped) dedup then dedup
                    else (dedup ++ [(id mapped, mapped)])%list), w'))
    /\ (forall vessels dedup w,
        exists added w', mergeVessels env vessels dedup w = (Ok (dedup ++ added)%list, w'))
    /\ (forall minutesBack boxes dedup w result w',
        areaLoop rt cfg env minutesBack boxes dedup w = (Ok result, w') ->
        exists added, result = (dedup ++ added)%list).
Proof.
  intros rt cfg env. split; [| split; [| split]].
  - intros expression mb w result w' Hrun.
    destruct (fetchVesselsInArea_inv _ _ _ _ _ _ _ _ Hrun)
      as (boxes & dedup & _ & Hloop & ->).
    destruct (areaLoop_spec _ _ _ _ _ _ _ _ _ Hloop) as (added & _ & Hkeyed).
    apply wellKeyed_ids in Hkeyed; [| apply wellKeyed_nil].
    eapply sublist_NoDup; [exact Hkeyed |].
    change (map id (mapZoneResults cfg (map snd dedup)))
      with (id <$> mapZoneResults cfg (map snd dedup)).
    change (map id (map snd dedup)) with (id <$> map snd dedup).
    apply fmap_sublist. apply mapZoneResults_sublist.
  - intros vessel dedup w.
    destruct (mapZoneVesselToShip_returns env vessel w) as (mapped & w' & Hmap).
    exists mapped, w'. split; [exact Hmap |].
    simpl. unfold bind. rewrite Hmap. reflexivity.
  - intros vessels dedup w.
    destruct (mergeVessels_spec env vessels dedup w) as (added & w' & H & _).
    eauto.
  - intros minutesBack boxes dedup w result w' Hrun.
    destruct (areaLoop_spec _ _ _ _ _ _ _ _ _ Hrun) as (added & H & _). eauto.
Qed.

(** Under a cap of one, the first of two boxes fills the map: one upstream
    call, one zone query, and the second box is never asked for. *)
Lemma area_search_capped_witness :
  exists dedup w',
    areaLoop sampleRuntime capOneConfig crowdedEnv (formatMinutesBack capOneConfig None)
      [ {| minLat := 0; maxLat := 1; minLon := 0; maxLon := 1 |} ] [] emptyWorld
    = (Ok dedup, w')
    /\ fetchVesselsInArea sampleRuntime capOneConfig crowdedEnv
         "bbox:0|0|1|1,bbox:2|2|3|3" None emptyWorld
       = (Ok (mapZoneResults capOneConfig (map snd dedup)), w')
    /\ length (fetched w') = 1%nat.
Proof.
  do 2 eexists. split; [vm_compute; reflexivity |]. split; [| reflexivity].
  apply (proj2 (area_search_capped sampleRuntime capOneConfig crowdedEnv
                  "bbox:0|0|1|1,bbox:2|2|3|3" None emptyWorld)
           [ {| minLat := 0; maxLat := 1; minLon := 0; maxLon := 1 |} ]
           [ {| minLat := 2; maxLat := 3; minLon := 2; maxLon := 3 |} ]).
  - reflexivity.
  - discriminate.
  - vm_compute. reflexivity.
  - simpl. lia.
Defined.

(** Two overlapping boxes over a crowded sea: each vessel comes back once. *)
Lemma area_search_deduplicated_witness :
  exists result w',
    fetchVesselsInArea sampleRuntime defaultConfig crowdedEnv
      "bbox:0|0|1|1,bbox:0|0|2|2" None emptyWorld = (Ok result, w')
    /\ length result = 2%nat
    /\ NoDup (map id result).
Proof.
  do 2 eexists. split; [vm_compute; reflexivity |]. split; [reflexivity |].
  eapply (proj1 (area_search_deduplicated sampleRuntime defaultConfig crowdedEnv)
            "bbox:0|0|1|1,bbox:0|0|2|2" None emptyWorld).
  vm_compute. reflexivity.
Defined.

(** ** minutesBack *)

Lemma Math_round_fin (m : Q) : Math_round (Fin m) = Fin (inject_Z (Qfloor (m + (1 # 2)))).
Proof. reflexivity. Qed.

Lemma formatMinutesBack_supplied (cfg : Config) (m : Q) :
  ~ (m == 0)%Q ->
  formatMinutesBack cfg (Some (Fin m)) = clampNumber (Math_round (Fin m)) 60 720.
Proof.
  intros Hm. unfold formatMinutesBack, num_truthy, Number_isNaN.
  destruct (Qeq_bool m 0) eqn:E; [apply Qeq_bool_eq in E; contradiction |].
  reflexivity.
Qed.

Lemma formatMinutesBack_zero (cfg : Config) (m : Q) :
  (m == 0)%Q -> formatMinutesBack cfg (Some (Fin m)) = DEFAULT_MINUTES_BACK cfg.
Proof.
  intros Hm. unfold formatMinutesBack, num_truthy.
  rewrite (Qeq_eq_bool _ _ Hm). reflexivity.
Qed.

(** Every zone query of an area search carries the formatted minutesBack. *)
Lemma fetchVesselsInArea_logs (rt : Runtime) (cfg : Config) (env : Env)
  (expression : string) (mb : option num) (w : World) :
  exists issued,
    zoneQueries (snd (fetchVesselsInArea rt cfg env expression mb w))
    = (zoneQueries w ++ issued)%list
    /\ Forall (fun q => zq_minutesBack q = Some (formatMinutesBack cfg mb)) issued.
Proof.
  unfold fetchVesselsInArea, bind, lift.
  destruct (tokenizeAreaExpression rt cfg expression) as [boxes | e].
  - destruct (areaLoop_logs rt cfg env (formatMinutesBack cfg mb) boxes [] w)
      as (k & _ & Hq).
    exists (map (boxQuery (formatMinutesBack cfg mb)) (firstn k boxes)). split.
    + destruct (areaLoop rt cfg env (formatMinutesBack cfg mb) boxes [] w)
        as [[dedup | e] w1]; exact Hq.
    + apply Forall_forall. intros q Hin.
      change (map (boxQuery (formatMinutesBack cfg mb)) (take k boxes))
        with (boxQuery (formatMinutesBack cfg mb) <$> take k boxes) in Hin.
      apply list_elem_of_fmap in Hin as (box & -> & _). reflexivity.
  - exists []. simpl. rewrite app_nil_r. split; [reflexivity | constructor].
Qed.

(** C5 as stated fails: a supplied [minutesBack] of 0 is sent as the
    configured default, here 30 and so below the floor of 60, while
    rounding and clamping 0 gives 60. *)
Lemma minutesBack_zero_uses_default :
  formatMinutesBack config30 (Some (Fin 0)) = Fin 30
  /\ clampNumber (Math_round (Fin 0)) 60 720 = Fin 60
  /\ zq_minutesBack (boxQuery (formatMinutesBack config30 (Some (Fin 0))) WMED)
     = Some (Fin 30).
Proof. repeat split. Qed.

(** C5 (amended). A supplied [minutesBack] other than 0 and NaN is rounded
    to the nearest integer and clamped into [60, 720], so 45 becomes 60; a
    [minutesBack] that is absent, 0 or NaN is replaced by the configured
    default, as configured.  The value so obtained is the [minutesBack] of
    the zone query of a near-me search and of every zone query of an area
    search. *)
Theorem minutesBack_rounded_and_clamped :
  forall (rt : Runtime) (cfg : Config) (env : Env) (m : Q),
    (~ (m == 0)%Q ->
       formatMinutesBack cfg (Some (Fin m)) = clampNumber (Math_round (Fin m)) 60 720
       /\ exists r, formatMinutesBack cfg (Some (Fin m)) = Fin r /\ (60 <= r <= 720)%Q)
    /\ formatMinutesBack cfg (Some (Fin 45)) = Fin 60
    /\ ((m == 0)%Q -> formatMinutesBack cfg (Some (Fin m)) = DEFAULT_MINUTES_BACK cfg)
    /\ formatMinutesBack cfg (Some NaN) = DEFAULT_MINUTES_BACK cfg
    /\ formatMinutesBack cfg None = DEFAULT_MINUTES_BACK cfg
    /\ (forall lat_ lon_ d mb w,
          exists q,
            zoneQueries (snd (fetchVesselsNearMe rt cfg env lat_ lon_ d mb w))
            = (zoneQueries w ++ [q])%list
            /\ zq_minutesBack q = Some (formatMinutesBack cfg mb))
    /\ (forall expression mb w,
          exists issued,
            zoneQueries (snd (fetchVesselsInArea rt cfg env expression mb w))
            = (zoneQueries w ++ issued)%list
            /\ Forall (fun q => zq_minutesBack q = Some (formatMinutesBack cfg mb)) issued).
Proof.
  intros rt cfg env m.
  split; [| split; [| split; [| split; [| split; [| split]]]]]; try reflexivity.
  - intros Hm. split; [apply formatMinutesBack_supplied; assumption |].
    rewrite formatMinutesBack_supplied by assumption. rewrite Math_round_fin.
    destruct (clampNumber_range (inject_Z (Qfloor (m + (1 # 2)))) 60 720)
      as (r & Hr & Hlo & Hhi & _); [lra |].
    exists r. auto.
  - apply formatMinutesBack_zero.
  - intros lat_ lon_ d mb w. eexists. split; [apply fetchVesselsNearMe_logs | reflexivity].
  - intros expression mb w. apply fetchVesselsInArea_logs.
Qed.

(** The documented request [?minutesBack=45]. *)
Lemma minutesBack_witness :
  formatMinutesBack defaultConfig (Some (Fin 45)) = clampNumber (Math_round (Fin 45)) 60 720
  /\ exists r, formatMinutesBack defaultConfig (Some (Fin 45)) = Fin r /\ (60 <= r <= 720)%Q.
Proof.
  apply (proj1 (minutesBack_rounded_and_clamped sampleRuntime defaultConfig quietEnv 45)).
  intros H. discriminate H.
Defined.

(** ** Port mode *)

Lemma digit_not_space (c : ascii) : isDigit c = true -> isSpace c = false.
Proof. destruct c as [[] [] [] [] [] [] [] []]; vm_compute; congruence. Qed.

Lemma letter_not_space (c : ascii) : isLetter c = true -> isSpace c = false.
Proof. destruct c as [[] [] [] [] [] [] [] []]; vm_compute; congruence. Qed.

Lemma trimEnd_fixed (s : string) :
  allChars (fun c => negb (isSpace c)) s = true -> trimEnd s = s.
Proof.
  induction s as [| c rest IH]; [reflexivity |]. simpl.
  intros H. apply andb_true_iff in H as [Hc Hrest].
  rewrite (IH Hrest). destruct rest; [| reflexivity].
  destruct (isSpace c); [discriminate | reflexivity].
Qed.

Lemma trimStart_fixed (s : string) :
  allChars (fun c => negb (isSpace c)) s = true -> trimStart s = s.
Proof.
  destruct s as [| c rest]; [reflexivity |]. simpl.
  intros H. apply andb_true_iff in H as [Hc _].
  destruct (isSpace c); [discriminate | reflexivity].
Qed.

Lemma allChars_impl (p q : ascii -> bool) (s : string) :
  (forall c, p c = true -> q c = true) -> allChars p s = true -> allChars q s = true.
Proof.
  intros Hpq. induction s as [| c rest IH]; [reflexivity |]. simpl.
  intros H. apply andb_true_iff in H as [Hc Hrest].
  rewrite (Hpq c Hc), (IH Hrest). reflexivity.
Qed.

(** A string of digits, or of letters, has nothing to trim. *)
Lemma trim_fixed (p : ascii -> bool) (s : string) :
  (forall c, p c = true -> isSpace c = false) -> allChars p s = true -> trim s = s.
Proof.
  intros Hp Hs.
  assert (allChars (fun c => negb (isSpace c)) s = true) as Hns.
  { apply (allChars_impl p); [| exact Hs]. intros c Hc. rewrite (Hp c Hc). reflexivity. }
  unfold trim. rewrite (trimStart_fixed s Hns). apply trimEnd_fixed. exact Hns.
Qed.

Lemma resolve_trimmed (rt : Runtime) (cfg : Config) (env : Env) (raw : string) :
  nonEmpty (trim raw) = true ->
  resolvePortIdentifier rt cfg env (Some raw)
  = if allDigits (trim raw) then
      ret (Some {| portId := Some (Number_of_string rt (trim raw));
                   unloco := None;
                   ref_name := Some (trim raw) |})
    else if fiveLetters (trim raw) then
      ret (Some {| portId := None;
                   unloco := Some (toUpperCase (trim raw));
                   ref_name := Some (toUpperCase (trim raw)) |})
    else
      matches <- searchPorts rt cfg env (trim raw) ;;
      match matches with
      | [] => ret None
      | match_ :: _ =>
          ret (Some {| portId := Some (ps_port_id match_);
                       unloco := Some (ps_unloco match_);
                       ref_name := Some (ps_name match_) |})
      end.
Proof.
  intros Hne. unfold resolvePortIdentifier.
  assert (nonEmpty raw = true) as ->.
  { destruct raw; [discriminate Hne | reflexivity]. }
  rewrite Hne. reflexivity.
Qed.

Lemma getVesselsInPort_unresolved (rt : Runtime) (cfg : Config) (env : Env)
  (shipPort : option string) (w w' : World) :
  resolvePortIdentifier rt cfg env shipPort w = (Ok None, w') ->
  getVesselsInPort rt cfg env shipPort w = (Ok [], w').
Proof.
  intros H. unfold getVesselsInPort, catch, getVesselsInPort_body, bind.
  rewrite H. reflexivity.
Qed.

Lemma resolve_blank (rt : Runtime) (cfg : Config) (env : Env) (raw : string) (w : World) :
  nonEmpty (trim raw) = false ->
  resolvePortIdentifier rt cfg env (Some raw) w = (Ok None, w).
Proof.
  intros H. unfold resolvePortIdentifier. rewrite H.
  destruct (nonEmpty raw); reflexivity.
Qed.

Lemma resolve_digits (rt : Runtime) (cfg : Config) (env : Env) (raw : string) (w : World) :
  allDigits raw = true ->
  resolvePortIdentifier rt cfg env (Some raw) w
  = (Ok (Some {| portId := Some (Number_of_string rt raw);
                 unloco := None;
                 ref_name := Some raw |}), w).
Proof.
  intros Hd. pose proof Hd as Hd'. unfold allDigits in Hd'.
  apply andb_true_iff in Hd' as [Hne Hall].
  assert (trim raw = raw) as Htrim
    by (apply (trim_fixed isDigit); [apply digit_not_space | exact Hall]).
  rewrite resolve_trimmed by (rewrite Htrim; exact Hne).
  rewrite Htrim, Hd. reflexivity.
Qed.

(** C6. A string of digits resolves to the port id it denotes, a string of
    exactly five letters to itself in upper case as a UN/LOCODE, both
    without any call; any other input that is not blank is searched for by
    name (after trimming), and the first match of the search is the port;
    and whenever resolution yields nothing, as it does for a missing or
    blank input and for a search without matches, [getVesselsInPort]
    answers with the empty list, not with an error. *)
Theorem port_identifier_resolution :
  forall (rt : Runtime) (cfg : Config) (env : Env) (raw : string) (w : World),
    (allDigits raw = true ->
       resolvePortIdentifier rt cfg env (Some raw) w
       = (Ok (Some {| portId := Some (Number_of_string rt raw);
                      unloco := None;
                      ref_name := Some raw |}), w))
    /\ (fiveLetters raw = true ->
       resolvePortIdentifier rt cfg env (Some raw) w
       = (Ok (Some {| portId := None;
                      unloco := Some (toUpperCase raw);
                      ref_name := Some (toUpperCase raw) |}), w))
    /\ (nonEmpty (trim raw) = true ->
        allDigits (trim raw) = false ->
        fiveLetters (trim raw) = false ->
        resolvePortIdentifier rt cfg env (Some raw) w
        = match searchPorts rt cfg env (trim raw) w with
          | (Ok [], w') => (Ok None, w')
          | (Ok (first :: _), w') =>
              (Ok (Some {| portId := Some (ps_port_id first);
                           unloco := Some (ps_unloco first);
                           ref_name := Some (ps_name first) |}), w')
          | (Throw e, w') => (Throw e, w')
          end)
    /\ (forall shipPort w',
          resolvePortIdentifier rt cfg env shipPort w = (Ok None, w') ->
          getVesselsInPort rt cfg env shipPort w = (Ok [], w'))
    /\ (nonEmpty (trim raw) = false ->
        getVesselsInPort rt cfg env (Some raw) w = (Ok [], w))
    /\ getVesselsInPort rt cfg env None w = (Ok [], w)
    /\ (forall w', searchPorts rt cfg env (trim raw) w = (Ok [], w') ->
        nonEmpty (trim raw) = true ->
        allDigits (trim raw) = false ->
        fiveLetters (trim raw) = false ->
        getVesselsInPort rt cfg env (Some raw) w = (Ok [], w')).
Proof.
  intros rt cfg env raw w.
  split; [| split; [| split; [| split; [| split; [| split]]]]].
  - intros Hd. unfold allDigits in Hd. apply andb_true_iff in Hd as [Hne Hall].
    assert (trim raw = raw) as Htrim
      by (apply (trim_fixed isDigit); [apply digit_not_space | exact Hall]).
    rewrite resolve_trimmed by (rewrite Htrim; exact Hne).
    rewrite Htrim. unfold allDigits. rewrite Hne, Hall. reflexivity.
  - intros Hl. unfold fiveLetters in Hl. apply andb_true_iff in Hl as [Hlen Hall].
    assert (trim raw = raw) as Htrim
      by (apply (trim_fixed isLetter); [apply letter_not_space | exact Hall]).
    assert (nonEmpty raw = true) as Hne.
    { destruct raw; [discriminate Hlen | reflexivity]. }
    rewrite resolve_trimmed by (rewrite Htrim; exact Hne).
    rewrite Htrim. unfold fiveLetters. rewrite Hlen, Hall.
    destruct (allDigits raw) eqn:Hd; [| reflexivity].
    (* digits are no letters *)
    exfalso. unfold allDigits in Hd. apply andb_true_iff in Hd as [_ Hd].
    destruct raw as [| c rest]; [discriminate Hne |].
    simpl in Hd, Hall.
    apply andb_true_iff in Hd as [Hd _]. apply andb_true_iff in Hall as [Hall _].
    revert Hd Hall. destruct c as [[] [] [] [] [] [] [] []]; vm_compute; congruence.
  - intros Hne Hd Hl. rewrite resolve_trimmed by exact Hne. rewrite Hd, Hl.
    unfold bind. destruct (searchPorts rt cfg env (trim raw) w) as [[[| first rest] | e] w'];
      reflexivity.
  - intros shipPort w'. apply getVesselsInPort_unresolved.
  - intros Hblank. apply getVesselsInPort_unresolved. apply resolve_blank. exact Hblank.
  - apply getVesselsInPort_unresolved. reflexivity.
  - intros w' Hsearch Hne Hd Hl. apply getVesselsInPort_unresolved.
    rewrite resolve_trimmed by exact Hne. rewrite Hd, Hl.
    unfold bind. rewrite Hsearch. reflexivity.
Qed.

(** The inputs of the design document: ["12345"] and ["DEHAM"] (here in
    lower case). *)
Lemma port_identifier_witness :
  resolvePortIdentifier sampleRuntime defaultConfig failingEnv (Some "12345") emptyWorld
  = (Ok (Some {| portId := Some (Fin 12345); unloco := None; ref_name := Some "12345" |}),
     emptyWorld)
  /\ resolvePortIdentifier sampleRuntime defaultConfig failingEnv (Some "deham") emptyWorld
     = (Ok (Some {| portId := None; unloco := Some "DEHAM"; ref_name := Some "DEHAM" |}),
        emptyWorld).
Proof.
  split.
  - apply (proj1 (port_identifier_resolution sampleRuntime defaultConfig failingEnv
                    "12345" emptyWorld)).
    reflexivity.
  - apply (proj1 (proj2 (port_identifier_resolution sampleRuntime defaultConfig failingEnv
                           "deham" emptyWorld))).
    reflexivity.
Defined.

(** ** The cache key *)

Lemma ascii_compare_trans (a b c : ascii) (r : comparison) :
  Ascii.compare a b = r -> Ascii.compare b c = r -> Ascii.compare a c = r.
Proof.
  unfold Ascii.compare. destruct r; intros H1 H2.
  - apply N.compare_eq_iff in H1, H2. apply N.compare_eq_iff. congruence.
  - pose proof (proj1 (N.compare_lt_iff _ _) H1) as L1.
    pose proof (proj1 (N.compare_lt_iff _ _) H2) as L2.
    apply N.compare_lt_iff. lia.
  - pose proof (proj1 (N.compare_gt_iff _ _) H1) as L1.
    pose proof (proj1 (N.compare_gt_iff _ _) H2) as L2.
    apply N.compare_gt_iff. lia.
Qed.

Lemma ascii_compare_eq (a b : ascii) : Ascii.compare a b = Eq -> a = b.
Proof. apply Ascii.compare_eq_iff. Qed.

Lemma String_leb_trans (s1 s2 s3 : string) :
  String.leb s1 s2 = true -> String.leb s2 s3 = true -> String.leb s1 s3 = true.
Proof.
  unfold String.leb. revert s2 s3.
  induction s1 as [| c1 r1 IH]; intros [| c2 r2] [| c3 r3]; simpl; try congruence.
  destruct (Ascii.compare c1 c2) eqn:E12; try discriminate;
    destruct (Ascii.compare c2 c3) eqn:E23; try discriminate; intros H1 H2.
  - rewrite (ascii_compare_trans _ _ _ _ E12 E23). eapply IH; eassumption.
  - apply ascii_compare_eq in E12. subst c2. rewrite E23. reflexivity.
  - apply ascii_compare_eq in E23. subst c3. rewrite E12. reflexivity.
  - rewrite (ascii_compare_trans _ _ _ _ E12 E23). reflexivity.
Qed.

#[global] Instance key_le_trans : Transitive key_le.
Proof. intros a b c. apply String_leb_trans. Qed.

#[global] Instance key_le_antisym : AntiSymm eq key_le.
Proof. intros a b. apply String.leb_antisym. Qed.

#[global] Instance key_le_total : Total key_le.
Proof. intros a b. apply String.leb_total. Qed.

(** Sorting forgets the order the keys came in. *)
Lemma sortKeys_permutation (keys keys' : list string) :
  keys ≡ₚ keys' -> sortKeys keys = sortKeys keys'.
Proof.
  intros Hp. unfold sortKeys.
  apply (Sorted_unique key_le); try apply Sorted_merge_sort; try typeclasses eauto.
  rewrite !merge_sort_Permutation. exact Hp.
Qed.

Lemma sanitizeParams_permutation (rt : Runtime) (params params' : list (string * PVal)) :
  params ≡ₚ params' -> sanitizeParams rt params ≡ₚ sanitizeParams rt params'.
Proof.
  induction 1 as [| [k v] l l' _ IH | [k1 v1] [k2 v2] l | l1 l2 l3 _ IH1 _ IH2].
  - reflexivity.
  - simpl. destruct v; [exact IH | constructor; exact IH | constructor; exact IH].
  - simpl. destruct v1, v2; try reflexivity; apply perm_swap.
  - etransitivity; eassumption.
Qed.

Lemma sanitizeParams_keys (rt : Runtime) (params : list (string * PVal)) :
  map fst (sanitizeParams rt params) `sublist_of` map fst params.
Proof.
  induction params as [| [k v] rest IH]; simpl; [constructor |].
  destruct v; simpl; [apply sublist_cons; exact IH | | ]; apply sublist_skip; exact IH.
Qed.

Lemma lookupParam_elem {V : Type} (key : string) (value : V) (params : list (string * V)) :
  NoDup (map fst params) -> (key, value) ∈ params -> lookupParam key params = Some value.
Proof.
  induction params as [| [k v] rest IH]; intros Hnd Hin; [inversion Hin |].
  simpl in *. apply NoDup_cons in Hnd as [Hk Hnd].
  apply elem_of_cons in Hin as [Heq | Hin].
  - inversion Heq; subst. rewrite String.eqb_refl. reflexivity.
  - destruct (String.eqb k key) eqn:E; [| apply IH; assumption].
    apply String.eqb_eq in E. subst k. exfalso. apply Hk.
    change (map fst rest) with (fst <$> rest).
    apply list_elem_of_fmap. exists (key, value). auto.
Qed.

Lemma lookupParam_none {V : Type} (key : string) (params : list (string * V)) :
  key ∉ map fst params -> lookupParam key params = None.
Proof.
  induction params as [| [k v] rest IH]; intros Hnin; [reflexivity |].
  simpl in *. apply not_elem_of_cons in Hnin as [Hne Hnin].
  destruct (String.eqb k key) eqn:E; [apply String.eqb_eq in E; congruence |].
  apply IH. exact Hnin.
Qed.

Lemma lookupParam_permutation {V : Type} (key : string) (params params' : list (string * V)) :
  NoDup (map fst params) -> params ≡ₚ params' ->
  lookupParam key params = lookupParam key params'.
Proof.
  intros Hnd Hp.
  assert (NoDup (map fst params')) as Hnd'.
  { change (NoDup (fst <$> params')). rewrite <- Hp. exact Hnd. }
  destruct (lookupParam key params) as [v |] eqn:E.
  - symmetry. apply lookupParam_elem; [exact Hnd' |]. rewrite <- Hp.
    clear -E. induction params as [| [k v'] rest IH]; [discriminate |].
    simpl in E. destruct (String.eqb k key) eqn:Ek.
    + apply String.eqb_eq in Ek. inversion E; subst. apply list_elem_of_here.
    + apply list_elem_of_further. apply IH. exact E.
  - symmetry. apply lookupParam_none. intros Hin.
    change (key ∈ fst <$> params') in Hin. rewrite <- Hp in Hin.
    apply list_elem_of_fmap in Hin as ([k v] & -> & Hin). simpl in E.
    rewrite (lookupParam_elem _ _ _ Hnd Hin) in E. discriminate.
Qed.

(** The cache key does not depend on the order of the parameters. *)
Lemma requestKey_permutation (rt : Runtime) (path : string)
  (params params' : list (string * PVal)) :
  NoDup (map fst params) -> params ≡ₚ params' ->
  requestKey rt path params = requestKey rt path params'.
Proof.
  intros Hnd Hp. unfold requestKey, buildCacheKey.
  pose proof (sanitizeParams_permutation rt _ _ Hp) as Hs.
  assert (NoDup (map fst (sanitizeParams rt params))) as Hnd'.
  { eapply sublist_NoDup; [exact Hnd | apply sanitizeParams_keys]. }
  rewrite (sortKeys_permutation (map fst (sanitizeParams rt params))
             (map fst (sanitizeParams rt params'))).
  2:{ change (fst <$> sanitizeParams rt params ≡ₚ fst <$> sanitizeParams rt params').
      rewrite Hs. reflexivity. }
  f_equal. f_equal. unfold join. f_equal. apply map_ext. intros key.
  rewrite (lookupParam_permutation key _ _ Hnd' Hs). reflexivity.
Qed.


(** ** The cache and the request *)

Lemma readCache_absent (env : Env) (key : string) (w : World) :
  cache w !! key = None -> readCache env key w = (Ok None, w).
Proof.
  intros H. unfold readCache, bind, get_cache. rewrite H. reflexivity.
Qed.

Lemma readCache_live (env : Env) (key : string) (entry : CacheEntry) (w : World) :
  cache w !! key = Some entry ->
  clock env (ticks w) <= expiresAt entry ->
  readCache env key w = (Ok (Some (payload entry)), tick w).
Proof.
  intros H Hlive. unfold readCache, bind, get_cache. rewrite H.
  unfold Date_now. cbv beta iota.
  assert ((expiresAt entry <? clock env (ticks w)) = false) as -> by lia.
  reflexivity.
Qed.

Lemma readCache_expired (env : Env) (key : string) (entry : CacheEntry) (w : World) :
  cache w !! key = Some entry ->
  expiresAt entry < clock env (ticks w) ->
  readCache env key w
  = (Ok None,
     {| cache := delete key (cache w); ticks := S (ticks w);
        fetched := fetched w; zoneQueries := zoneQueries w |}).
Proof.
  intros H Hdead. unfold readCache, bind, get_cache. rewrite H.
  unfold Date_now. cbv beta iota.
  assert ((expiresAt entry <? clock env (ticks w)) = true) as -> by lia.
  reflexivity.
Qed.

Lemma apiKey_present (cfg : Config) (w : World) :
  hasApiKey cfg = true -> exists key, apiKey cfg w = (Ok key, w).
Proof.
  unfold hasApiKey, apiKey. destruct (MST_API_KEY cfg) as [key |]; [| discriminate].
  intros ->. exists key. reflexivity.
Qed.

Lemma apiKey_missing (cfg : Config) (w : World) :
  hasApiKey cfg = false -> apiKey cfg w = (Throw MissingApiKey, w).
Proof.
  unfold hasApiKey, apiKey. destruct (MST_API_KEY cfg) as [key |]; [| reflexivity].
  intros ->. reflexivity.
Qed.

(** The network part of a request, with a credential: the call is logged,
    and the answer decides the rest. *)
Lemma request_upstream_run (cfg : Config) (env : Env) (path : string)
  (query : list (string * string)) (key : string) (ttl : Z) (w : World) :
  hasApiKey cfg = true ->
  request_upstream cfg env path query key ttl w
  = let call := {| call_path := path; call_query := query |} in
    match upstream env (length (fetched w)) call with
    | Rejected why => (Throw (FetchRejected why), called call w)
    | Responded response =>
        match body response with
        | Malformed why => (Throw (ParseFailed path why), called call w)
        | JsonNull => (Throw (TypeError "Cannot read properties of null"), called call w)
        | Json envelope =>
            if negb (ok response) || negb (String.eqb (env_status envelope) "success")
            then (Throw (RequestFailed
                           match env_code envelope with
                           | Some c => inl c
                           | None => inr (status response)
                           end
                           match env_message envelope with
                           | Some m => m
                           | None => "Unknown error"
                           end), called call w)
            else if 0 <? ttl
                 then (Ok (env_data envelope),
                       {| cache := <[key := {| expiresAt := clock env (ticks w) + ttl;
                                               payload := env_data envelope |}]> (cache w);
                          ticks := S (ticks w);
                          fetched := (fetched w ++ [call])%list;
                          zoneQueries := zoneQueries w |})
                 else (Ok (env_data envelope), called call w)
        end
    end.
Proof.
  intros Hkey. destruct (apiKey_present cfg w Hkey) as (k & Hk).
  unfold request_upstream. unfold bind at 1. rewrite Hk.
  unfold bind at 1. unfold fetch. cbv zeta.
  destruct (upstream env (length (fetched w)) _) as [why | response]; [reflexivity |].
  destruct (body response) as [why | | envelope]; try reflexivity.
  destruct (negb (ok response) || negb (String.eqb (env_status envelope) "success"));
    [reflexivity |].
  unfold writeCache. destruct (0 <? ttl) eqn:E; [| reflexivity].
  assert ((ttl <=? 0) = false) as -> by lia.
  reflexivity.
Qed.

Lemma request_upstream_no_key (cfg : Config) (env : Env) (path : string)
  (query : list (string * string)) (key : string) (ttl : Z) (w : World) :
  hasApiKey cfg = false ->
  request_upstream cfg env path query key ttl w = (Throw MissingApiKey, w).
Proof.
  intros Hkey. unfold request_upstream. unfold bind at 1.
  rewrite (apiKey_missing cfg w Hkey). reflexivity.
Qed.

(** With nothing cached under the key, or with caching off, a request is
    its network part. *)
Lemma request_miss (rt : Runtime) (cfg : Config) (env : Env) (path : string)
  (params : list (string * PVal)) (ttl : Z) (w : World) :
  ttl <= 0 \/ cache w !! requestKey rt path params = None ->
  request rt cfg env path params ttl w
  = request_upstream cfg env path (sanitizeParams rt params)
      (requestKey rt path params) ttl w.
Proof.
  intros H. unfold request, requestKey in *. unfold bind at 1.
  destruct (0 <? ttl) eqn:E.
  - destruct H as [H | H]; [lia |]. rewrite (readCache_absent env _ w H). reflexivity.
  - reflexivity.
Qed.

Lemma request_hit (rt : Runtime) (cfg : Config) (env : Env) (path : string)
  (params : list (string * PVal)) (ttl : Z) (entry : CacheEntry) (w : World) :
  0 < ttl ->
  cache w !! requestKey rt path params = Some entry ->
  clock env (ticks w) <= expiresAt entry ->
  payload_truthy (payload entry) = true ->
  request rt cfg env path params ttl w = (Ok (payload entry), tick w).
Proof.
  intros Httl Hentry Hlive Htruthy. unfold request, requestKey in *. unfold bind at 1.
  assert ((0 <? ttl) = true) as -> by lia.
  rewrite (readCache_live env _ entry w Hentry Hlive). rewrite Htruthy. reflexivity.
Qed.

Lemma request_expired (rt : Runtime) (cfg : Config) (env : Env) (path : string)
  (params : list (string * PVal)) (ttl : Z) (entry : CacheEntry) (w : World) :
  0 < ttl ->
  cache w !! requestKey rt path params = Some entry ->
  expiresAt entry < clock env (ticks w) ->
  request rt cfg env path params ttl w
  = request_upstream cfg env path (sanitizeParams rt params)
      (requestKey rt path params) ttl
      {| cache := delete (requestKey rt path params) (cache w); ticks := S (ticks w);
         fetched := fetched w; zoneQueries := zoneQueries w |}.
Proof.
  intros Httl Hentry Hdead. unfold request, requestKey in *. unfold bind at 1.
  assert ((0 <? ttl) = true) as -> by lia.
  rewrite (readCache_expired env _ entry w Hentry Hdead). reflexivity.
Qed.


(** X1. The cache key of a request does not depend on the order in which
    the caller lists the parameters. *)
Theorem cache_key_ignores_parameter_order :
  forall (rt : Runtime) (path : string) (params params' : list (string * PVal)),
    NoDup (map fst params) ->
    params ≡ₚ params' ->
    buildCacheKey path (sanitizeParams rt params)
    = buildCacheKey path (sanitizeParams rt params').
Proof. intros rt path params params'. apply requestKey_permutation. Qed.

Lemma cache_key_order_witness :
  buildCacheKey "vessel/zone"
    (sanitizeParams sampleRuntime [("minlat", PNum 36); ("maxlat", PNum 41)])
  = buildCacheKey "vessel/zone"
      (sanitizeParams sampleRuntime [("maxlat", PNum 41); ("minlat", PNum 36)]).
Proof.
  apply cache_key_ignores_parameter_order.
  - apply NoDup_cons. split; [| apply NoDup_singleton].
    intros H. apply list_elem_of_singleton in H. discriminate H.
  - apply perm_swap.
Defined.

(** X2. A request with a positive TTL that finds a truthy payload under its
    key, not yet past its expiry, returns that payload and does nothing
    else but read the clock: no credential is needed, no upstream call is
    made and the cache stays as it is.  The entry is still served when the
    clock reads exactly its expiry. *)
Theorem cached_payload_served_until_expiry :
  forall (rt : Runtime) (cfg : Config) (env : Env) (path : string)
         (params : list (string * PVal)) (ttl : Z) (entry : CacheEntry) (w : World),
    0 < ttl ->
    cache w !! buildCacheKey path (sanitizeParams rt params) = Some entry ->
    clock env (ticks w) <= expiresAt entry ->
    payload_truthy (payload entry) = true ->
    request rt cfg env path params ttl w = (Ok (payload entry), tick w).
Proof. intros rt cfg env path params ttl entry w. apply request_hit. Qed.

Lemma request_expired_spec :
  forall (rt : Runtime) (cfg : Config) (env : Env) (path : string)
         (params : list (string * PVal)) (ttl : Z) (entry : CacheEntry) (w : World),
    0 < ttl ->
    hasApiKey cfg = true ->
    cache w !! buildCacheKey path (sanitizeParams rt params) = Some entry ->
    expiresAt entry < clock env (ticks w) ->
    exists outcome w',
      request rt cfg env path params ttl w = (outcome, w')
      /\ fetched w' = (fetched w ++ [requestCall rt path params])%list
      /\ match outcome with
         | Throw _ =>
             cache w' = delete (buildCacheKey path (sanitizeParams rt params)) (cache w)
         | Ok data =>
             cache w' !! buildCacheKey path (sanitizeParams rt params)
             = Some {| expiresAt := clock env (S (ticks w)) + ttl; payload := data |}
         end.
Proof.
  intros rt cfg env path params ttl entry w Httl Hkey Hentry Hdead.
  rewrite (request_expired rt cfg env path params ttl entry w Httl Hentry Hdead).
  rewrite (request_upstream_run cfg env path _ _ ttl _ Hkey). cbv zeta.
  cbn [fetched ticks cache zoneQueries]. fold (requestCall rt path params).
  destruct (upstream env (length (fetched w)) (requestCall rt path params))
    as [why | response]; [do 2 eexists; repeat split |].
  destruct (body response) as [why | | envelope]; try solve [do 2 eexists; repeat split].
  destruct (negb (ok response) || negb (String.eqb (env_status envelope) "success"));
    [do 2 eexists; repeat split |].
  assert ((0 <? ttl) = true) as -> by lia.
  do 2 eexists. split; [reflexivity |]. split; [reflexivity |].
  cbn [cache]. apply lookup_insert_eq.
Qed.

(** X3. An entry past its expiry is evicted by the lookup that finds it, and
    the request goes to the network: exactly one upstream call is logged;
    when that call fails the key is left without an entry, and when it
    succeeds the key holds the new payload, expiring one TTL after the
    clock reading of the write. *)
Theorem expired_entry_evicted_and_refetched :
  forall (rt : Runtime) (cfg : Config) (env : Env) (path : string)
         (params : list (string * PVal)) (ttl : Z) (entry : CacheEntry) (w : World),
    0 < ttl ->
    hasApiKey cfg = true ->
    cache w !! buildCacheKey path (sanitizeParams rt params) = Some entry ->
    expiresAt entry < clock env (ticks w) ->
    exists outcome w',
      request rt cfg env path params ttl w = (outcome, w')
      /\ fetched w' = (fetched w ++ [requestCall rt path params])%list
      /\ match outcome with
         | Throw _ =>
             cache w' = delete (buildCacheKey path (sanitizeParams rt params)) (cache w)
         | Ok data =>
             cache w' !! buildCacheKey path (sanitizeParams rt params)
             = Some {| expiresAt := clock env (S (ticks w)) + ttl; payload := data |}
         end.
Proof. exact request_expired_spec. Qed.

(** X5. A request with a TTL of zero (or less), as every point-status
    lookup is, neither reads nor writes the cache: whatever the cache
    holds, the cache and the clock count are left as they were, and with a
    credential exactly one upstream call is made. *)
Theorem uncached_request_bypasses_cache :
  forall (rt : Runtime) (cfg : Config) (env : Env) (path : string)
         (params : list (string * PVal)) (ttl : Z) (w : World),
    ttl <= 0 ->
    cache (snd (request rt cfg env path params ttl w)) = cache w
    /\ ticks (snd (request rt cfg env path params ttl w)) = ticks w
    /\ (hasApiKey cfg = true ->
        fetched (snd (request rt cfg env path params ttl w))
        = (fetched w ++ [requestCall rt path params])%list).
Proof.
  intros rt cfg env path params ttl w Httl.
  rewrite (request_miss rt cfg env path params ttl w (or_introl Httl)).
  destruct (hasApiKey cfg) eqn:Hkey.
  - rewrite (request_upstream_run cfg env path _ _ ttl w Hkey). cbv zeta.
    fold (requestCall rt path params).
    assert ((0 <? ttl) = false) as Hoff by lia.
    destruct (upstream env (length (fetched w)) (requestCall rt path params))
      as [why | response]; [repeat split |].
    destruct (body response) as [why | | envelope]; try solve [repeat split].
    destruct (negb (ok response) || negb (String.eqb (env_status envelope) "success"));
      [repeat split |].
    rewrite Hoff. repeat split.
  - rewrite (request_upstream_no_key cfg env path _ _ ttl w Hkey).
    repeat split. discriminate.
Qed.

(** X6. Without a credential, a request that has to go to the network
    fails with the missing-key error before any call is made, and the
    world is left as it was. *)
Theorem missing_credential_blocks_network :
  forall (rt : Runtime) (cfg : Config) (env : Env) (path : string)
         (params : list (string * PVal)) (ttl : Z) (w : World),
    hasApiKey cfg = false ->
    ttl <= 0 \/ cache w !! buildCacheKey path (sanitizeParams rt params) = None ->
    request rt cfg env path params ttl w = (Throw MissingApiKey, w).
Proof.
  intros rt cfg env path params ttl w Hkey Hmiss.
  rewrite (request_miss rt cfg env path params ttl w Hmiss).
  apply request_upstream_no_key. exact Hkey.
Qed.

Lemma request_protocol_failure (rt : Runtime) (cfg : Config) (env : Env) (path : string)
  (params : list (string * PVal)) (ttl : Z) (w : World) (response : HttpResponse)
  (e : Error) :
  hasApiKey cfg = true ->
  ttl <= 0 \/ cache w !! requestKey rt path params = None ->
  upstream env (length (fetched w)) (requestCall rt path params) = Responded response ->
  protocolFailure path response = Some e ->
  request rt cfg env path params ttl w = (Throw e, called (requestCall rt path params) w).
Proof.
  intros Hkey Hmiss Hup He.
  rewrite (request_miss rt cfg env path params ttl w Hmiss).
  rewrite (request_upstream_run cfg env path _ _ ttl w Hkey). cbv zeta.
  fold (requestCall rt path params). rewrite Hup. unfold protocolFailure in He.
  destruct (body response) as [why | | envelope].
  - inversion He. reflexivity.
  - discriminate.
  - destruct (String.eqb (env_status envelope) "success"); [discriminate |].
    inversion He. rewrite orb_true_r. reflexivity.
Qed.




(** What a successful request that found nothing cached leaves behind. *)
Lemma request_miss_success (rt : Runtime) (cfg : Config) (env : Env) (path : string)
  (params : list (string * PVal)) (ttl : Z) (w0 w1 : World) (data : Payload) :
  0 < ttl ->
  cache w0 !! requestKey rt path params = None ->
  request rt cfg env path params ttl w0 = (Ok data, w1) ->
  hasApiKey cfg = true
  /\ w1 = {| cache := <[requestKey rt path params :=
                        {| expiresAt := clock env (ticks w0) + ttl; payload := data |}]>
                      (cache w0);
             ticks := S (ticks w0);
             fetched := (fetched w0 ++ [requestCall rt path params])%list;
             zoneQueries := zoneQueries w0 |}.
Proof.
  intros Httl Hmiss Hrun.
  rewrite (request_miss rt cfg env path params ttl w0 (or_intror Hmiss)) in Hrun.
  destruct (hasApiKey cfg) eqn:Hkey.
  2:{ rewrite (request_upstream_no_key cfg env path _ _ ttl w0 Hkey) in Hrun. discriminate. }
  split; [reflexivity |].
  rewrite (request_upstream_run cfg env path _ _ ttl w0 Hkey) in Hrun. cbv zeta in Hrun.
  fold (requestCall rt path params) in Hrun.
  destruct (upstream env (length (fetched w0)) (requestCall rt path params))
    as [why | response]; [discriminate |].
  destruct (body response) as [why | | envelope]; try discriminate.
  destruct (negb (ok response) || negb (String.eqb (env_status envelope) "success"));
    [discriminate |].
  assert ((0 <? ttl) = true) as E by lia. rewrite E in Hrun.
  inversion Hrun; subst. reflexivity.
Qed.

(** X4. Two identical requests.  When a request with a positive TTL finds
    nothing cached and succeeds with a truthy payload at clock reading [t],
    it has made exactly one upstream call and left the payload under its
    key, expiring at [t + ttl].  As long as that entry stands, the same
    request, its parameters in any order, issued when the clock reads at
    most [t + ttl] returns the payload without any upstream call; issued
    when the clock reads more, it makes a second upstream call. *)
Theorem two_identical_requests_one_call :
  forall (rt : Runtime) (cfg : Config) (env : Env) (path : string)
         (params params' : list (string * PVal)) (ttl : Z)
         (w0 w1 : World) (data : Payload),
    0 < ttl ->
    NoDup (map fst params) ->
    params ≡ₚ params' ->
    cache w0 !! buildCacheKey path (sanitizeParams rt params) = None ->
    request rt cfg env path params ttl w0 = (Ok data, w1) ->
    payload_truthy data = true ->
    fetched w1 = (fetched w0 ++ [requestCall rt path params])%list
    /\ cache w1 !! buildCacheKey path (sanitizeParams rt params)
       = Some {| expiresAt := clock env (ticks w0) + ttl; payload := data |}
    /\ forall w2,
         cache w2 !! buildCacheKey path (sanitizeParams rt params)
         = cache w1 !! buildCacheKey path (sanitizeParams rt params) ->
         (clock env (ticks w2) <= clock env (ticks w0) + ttl ->
          request rt cfg env path params' ttl w2 = (Ok data, tick w2))
         /\ (clock env (ticks w0) + ttl < clock env (ticks w2) ->
             fetched (snd (request rt cfg env path params' ttl w2))
             = (fetched w2 ++ [requestCall rt path params'])%list).
Proof.
  intros rt cfg env path params params' ttl w0 w1 data Httl Hnd Hperm Hmiss Hrun Htruthy.
  destruct (request_miss_success rt cfg env path params ttl w0 w1 data Httl Hmiss Hrun)
    as [Hkey ->].
  cbn [fetched cache]. unfold requestKey.
  split; [reflexivity |]. split; [apply lookup_insert_eq |].
  intros w2 Hsame. rewrite lookup_insert_eq in Hsame.
  pose proof (requestKey_permutation rt path params params' Hnd Hperm) as Hk.
  unfold requestKey in Hk. rewrite Hk in Hsame. split.
  - intros Hlive.
    apply (request_hit rt cfg env path params' ttl _ w2 Httl Hsame); assumption.
  - intros Hdead.
    destruct (request_expired_spec rt cfg env path params' ttl _ w2
                Httl Hkey Hsame Hdead) as (outcome & w3 & -> & Hf & _).
    exact Hf.
Qed.

(** The cached answer, served at the very reading of its expiry. *)
Lemma cached_payload_witness :
  request sampleRuntime noKeyConfig failingEnv "port/search" hamburgParams 300000
    (cachedWorld 1000)
  = (Ok (PPorts []), tick (cachedWorld 1000)).
Proof.
  apply (cached_payload_served_until_expiry sampleRuntime noKeyConfig failingEnv
           "port/search" hamburgParams 300000
           {| expiresAt := 1000; payload := PPorts [] |} (cachedWorld 1000)).
  - reflexivity.
  - apply lookup_singleton_eq.
  - vm_compute. discriminate.
  - reflexivity.
Defined.

(** An answer that expired at 999, looked up when the clock reads 1000. *)
Lemma expired_entry_witness :
  exists outcome w',
    request sampleRuntime defaultConfig failingEnv "port/search" hamburgParams 300000
      (cachedWorld 999) = (outcome, w')
    /\ fetched w'
       = (fetched (cachedWorld 999)
          ++ [requestCall sampleRuntime "port/search" hamburgParams])%list
    /\ match outcome with
       | Throw _ =>
           cache w'
           = delete (buildCacheKey "port/search" (sanitizeParams sampleRuntime hamburgParams))
               (cache (cachedWorld 999))
       | Ok data =>
           cache w' !! buildCacheKey "port/search" (sanitizeParams sampleRuntime hamburgParams)
           = Some {| expiresAt := clock failingEnv (S (ticks (cachedWorld 999))) + 300000;
                     payload := data |}
       end.
Proof.
  apply (expired_entry_evicted_and_refetched sampleRuntime defaultConfig failingEnv
           "port/search" hamburgParams 300000
           {| expiresAt := 999; payload := PPorts [] |} (cachedWorld 999)).
  - reflexivity.
  - reflexivity.
  - apply lookup_singleton_eq.
  - reflexivity.
Defined.

(** A status lookup (TTL 0) over a cache that holds a live entry. *)
Lemma uncached_request_witness :
  cache (snd (request sampleRuntime defaultConfig quietEnv "port/search" hamburgParams 0
                (cachedWorld 5000)))
  = cache (cachedWorld 5000)
  /\ ticks (snd (request sampleRuntime defaultConfig quietEnv "port/search" hamburgParams 0
                   (cachedWorld 5000)))
     = ticks (cachedWorld 5000)
  /\ (hasApiKey defaultConfig = true ->
      fetched (snd (request sampleRuntime defaultConfig quietEnv "port/search"
                      hamburgParams 0 (cachedWorld 5000)))
      = (fetched (cachedWorld 5000)
         ++ [requestCall sampleRuntime "port/search" hamburgParams])%list).
Proof.
  apply (uncached_request_bypasses_cache sampleRuntime defaultConfig quietEnv
           "port/search" hamburgParams 0 (cachedWorld 5000)).
  discriminate.
Defined.

Lemma missing_credential_witness :
  request sampleRuntime noKeyConfig quietEnv "port/search" hamburgParams 300000 emptyWorld
  = (Throw MissingApiKey, emptyWorld).
Proof.
  apply (missing_credential_blocks_network sampleRuntime noKeyConfig quietEnv
           "port/search" hamburgParams 300000 emptyWorld).
  - reflexivity.
  - right. apply lookup_empty.
Defined.


(** The same port search twice, the second time at the reading of the
    expiry: one upstream call in all. *)
Lemma two_identical_requests_witness :
  exists data w1,
    request sampleRuntime defaultConfig quietEnv "vessel/zone" [("a", PStr "1"); ("b", PStr "2")]
      100 emptyWorld = (Ok data, w1)
    /\ clock quietEnv (ticks w1) = clock quietEnv (ticks emptyWorld) + 100
    /\ request sampleRuntime defaultConfig quietEnv "vessel/zone"
         [("b", PStr "2"); ("a", PStr "1")] 100 w1 = (Ok data, tick w1)
    /\ length (fetched (tick w1)) = 1%nat.
Proof.
  do 2 eexists. split; [vm_compute; reflexivity |]. split; [reflexivity |].
  split; [| reflexivity].
  eapply (proj1 (proj2 (proj2 (two_identical_requests_one_call sampleRuntime defaultConfig
            quietEnv "vessel/zone" [("a", PStr "1"); ("b", PStr "2")]
            [("b", PStr "2"); ("a", PStr "1")] 100 emptyWorld _ _ _ _ _ _ _ _)) _ eq_refl)).
  vm_compute. discriminate.
  Unshelve.
  - reflexivity.
  - apply NoDup_cons. split; [| apply NoDup_singleton].
    intros H. apply list_elem_of_singleton in H. discriminate H.
  - apply perm_swap.
  - apply lookup_empty.
  - vm_compute. reflexivity.
  - reflexivity.
Defined.

(** ** Failures in the searches *)

(** A request never makes more than one upstream call. *)
Lemma request_at_most_one_call (rt : Runtime) (cfg : Config) (env : Env) (path : string)
  (params : list (string * PVal)) (ttl : Z) (w : World) :
  fetched (snd (request rt cfg env path params ttl w)) = fetched w
  \/ fetched (snd (request rt cfg env path params ttl w))
     = (fetched w ++ [requestCall rt path params])%list.
Proof.
  assert (forall key w0,
             fetched (snd (request_upstream cfg env path (sanitizeParams rt params) key ttl w0))
             = fetched w0
             \/ fetched (snd (request_upstream cfg env path (sanitizeParams rt params) key ttl w0))
                = (fetched w0 ++ [requestCall rt path params])%list) as Hup.
  { intros key w0. destruct (hasApiKey cfg) eqn:Hkey.
    - right. rewrite (request_upstream_run cfg env path _ key ttl w0 Hkey). cbv zeta.
      fold (requestCall rt path params).
      destruct (upstream env (length (fetched w0)) (requestCall rt path params))
        as [why | response]; [reflexivity |].
      destruct (body response) as [why | | envelope]; try reflexivity.
      destruct (negb (ok response) || negb (String.eqb (env_status envelope) "success"));
        [reflexivity |].
      destruct (0 <? ttl); reflexivity.
    - left. rewrite (request_upstream_no_key cfg env path _ key ttl w0 Hkey). reflexivity. }
  unfold request. unfold bind at 1.
  destruct (0 <? ttl) eqn:Httl; [| apply Hup].
  unfold readCache, bind, get_cache.
  destruct (cache w !! buildCacheKey path (sanitizeParams rt params)) as [entry |];
    [| apply Hup].
  unfold Date_now. cbv beta iota.
  destruct (expiresAt entry <? clock env (ticks w)).
  - unfold set_cache, ret. cbv beta iota.
    match goal with
    | |- context [request_upstream _ _ _ _ ?k _ ?w0] => exact (Hup k w0)
    end.
  - unfold ret. cbv beta iota. destruct (payload_truthy (payload entry)); [left; reflexivity |].
    match goal with
    | |- context [request_upstream _ _ _ _ ?k _ ?w0] => exact (Hup k w0)
    end.
Qed.

Lemma getVesselsInZone_throw (rt : Runtime) (cfg : Config) (env : Env)
  (query : ZoneQuery) (w w' : World) (e : Error) :
  request rt cfg env "vessel/zone" (zoneParams query) 300000 (queried query w) = (Throw e, w') ->
  getVesselsInZone rt cfg env query w = (Throw e, w').
Proof.
  intros H. unfold getVesselsInZone. unfold bind at 1. unfold log_zone_query.
  fold (queried query w). unfold bind. rewrite H. reflexivity.
Qed.

(** A run of boxes that ends below the cap hands over to the boxes behind. *)
Lemma areaLoop_continues (rt : Runtime) (cfg : Config) (env : Env) (mb : num)
  (pre post : list BoundingBox) :
  forall (dedup result : list (string * ShipSummary)) (w w' : World),
    areaLoop rt cfg env mb pre dedup w = (Ok result, w') ->
    (length result < MAX_RESULTS cfg)%nat ->
    areaLoop rt cfg env mb (pre ++ post) dedup w = areaLoop rt cfg env mb post result w'.
Proof.
  induction pre as [| box rest IH]; intros dedup result w w' Hrun Hcap.
  - simpl in Hrun. unfold ret in Hrun. inversion Hrun; subst. reflexivity.
  - simpl in *. unfold bind at 1 in Hrun. unfold bind at 1.
    destruct (getVesselsInZone rt cfg env (boxQuery mb box) w) as [[vessels | e] w1];
      [| discriminate].
    unfold bind at 1 in Hrun. unfold bind at 1.
    destruct (mergeVessels env vessels dedup w1) as [[merged | e] w2]; [| discriminate].
    destruct (MAX_RESULTS cfg <=? length merged)%nat eqn:E.
    + unfold ret in Hrun. inversion Hrun; subst. apply Nat.leb_le in E. lia.
    + apply IH; assumption.
Qed.

(** X8. No partial results.  When the zone query of a box fails, after any
    number of boxes that were fetched and merged without reaching the cap,
    the whole area search fails with that error: the vessels already
    merged are not returned. *)
Theorem area_search_aborts_on_failure :
  forall (rt : Runtime) (cfg : Config) (env : Env) (expression : string)
         (mb : option num) (pre post : list BoundingBox) (box : BoundingBox)
         (dedup : list (string * ShipSummary)) (w w1 w2 : World) (e : Error),
    tokenizeAreaExpression rt cfg expression = Ok (pre ++ box :: post)%list ->
    areaLoop rt cfg env (formatMinutesBack cfg mb) pre [] w = (Ok dedup, w1) ->
    (length dedup < MAX_RESULTS cfg)%nat ->
    getVesselsInZone rt cfg env (boxQuery (formatMinutesBack cfg mb) box) w1 = (Throw e, w2) ->
    fetchVesselsInArea rt cfg env expression mb w = (Throw e, w2).
Proof.
  intros rt cfg env expression mb pre post box dedup w w1 w2 e Htok Hpre Hcap Hfail.
  unfold fetchVesselsInArea. unfold bind at 1. unfold lift. rewrite Htok.
  unfold bind at 1.
  rewrite (areaLoop_continues rt cfg env _ pre (box :: post) [] dedup w w1 Hpre Hcap).
  simpl. unfold bind at 1. rewrite Hfail. reflexivity.
Qed.

(** X9. A near-me search whose zone query is not in the cache goes to the
    network once, and an upstream protocol failure there is the failure of
    the search, with the upstream's code and message: no empty list stands
    in for it. *)
Theorem near_me_surfaces_protocol_failure :
  forall (rt : Runtime) (cfg : Config) (env : Env) (lat_ lon_ d : num) (mb : option num)
         (w : World) (response : HttpResponse) (e : Error),
    hasApiKey cfg = true ->
    cache w !! buildCacheKey "vessel/zone"
                 (sanitizeParams rt (zoneParams (nearMeQuery rt cfg lat_ lon_ d mb))) = None ->
    upstream env (length (fetched w))
      (requestCall rt "vessel/zone" (zoneParams (nearMeQuery rt cfg lat_ lon_ d mb)))
    = Responded response ->
    protocolFailure "vessel/zone" response = Some e ->
    fetchVesselsNearMe rt cfg env lat_ lon_ d mb w
    = (Throw e,
       called (requestCall rt "vessel/zone" (zoneParams (nearMeQuery rt cfg lat_ lon_ d mb)))
         (queried (nearMeQuery rt cfg lat_ lon_ d mb) w)).
Proof.
  intros rt cfg env lat_ lon_ d mb w response e Hkey Hmiss Hup Hfail.
  unfold fetchVesselsNearMe. unfold bind at 1.
  erewrite (getVesselsInZone_throw rt cfg env _ w); [reflexivity |].
  apply (request_protocol_failure rt cfg env "vessel/zone" _ 300000
           (queried (nearMeQuery rt cfg lat_ lon_ d mb) w) response e
           Hkey (or_intror Hmiss) Hup Hfail).
Qed.

(** Two boxes, the upstream failing on the second: the vessel of the
    first box is lost with the error. *)
Lemma area_search_aborts_witness :
  exists w2,
    fetchVesselsInArea sampleRuntime defaultConfig flakyEnv
      "bbox:0|0|1|1,bbox:2|2|3|3" None emptyWorld
    = (Throw (RequestFailed (inl "ERR_NO_CREDITS") "No credits left"), w2).
Proof.
  eexists.
  eapply (area_search_aborts_on_failure sampleRuntime defaultConfig flakyEnv
            "bbox:0|0|1|1,bbox:2|2|3|3" None
            [ {| minLat := 0; maxLat := 1; minLon := 0; maxLon := 1 |} ] []
            {| minLat := 2; maxLat := 3; minLon := 2; maxLon := 3 |}).
  - reflexivity.
  - vm_compute. reflexivity.
  - vm_compute. lia.
  - vm_compute. reflexivity.
Defined.

Lemma near_me_failure_witness :
  fetchVesselsNearMe sampleRuntime defaultConfig failingEnv 36 14 5 None emptyWorld
  = (Throw (RequestFailed (inl "ERR_NO_CREDITS") "No credits left"),
     called (requestCall sampleRuntime "vessel/zone"
               (zoneParams (nearMeQuery sampleRuntime defaultConfig 36 14 5 None)))
       (queried (nearMeQuery sampleRuntime defaultConfig 36 14 5 None) emptyWorld)).
Proof.
  apply (near_me_surfaces_protocol_failure sampleRuntime defaultConfig failingEnv
           36 14 5 None emptyWorld
           {| ok := false; status := 402;
              body := Json {| env_status := "error"; env_data := PNull;
                              env_message := Some "No credits left";
                              env_code := Some "ERR_NO_CREDITS" |} |}).
  - reflexivity.
  - apply lookup_empty.
  - reflexivity.
  - reflexivity.
Defined.

(** ** Identifiers are never empty *)

Lemma String_of_Z_nonEmpty (z : Z) : nonEmpty (String_of_Z z) = true.
Proof.
  unfold String_of_Z, NilZero.string_of_int, NilZero.string_of_uint.
  destruct (Z.to_int z) as [d | d]; [| reflexivity].
  destruct d; reflexivity.
Qed.

Lemma buildShipId_nonEmpty (env : Env) (m i : option Z) (n t : string)
  (w w' : World) (id_ : string) :
  buildShipId env m i n t w = (Ok id_, w') -> nonEmpty id_ = true.
Proof.
  unfold buildShipId, bind, ret, Date_now.
  destruct (truthyZ m) as [z |].
  - intros H. inversion H. apply String_of_Z_nonEmpty.
  - destruct (truthyZ i) as [z |].
    + intros H. inversion H. apply String_of_Z_nonEmpty.
    + destruct (nonEmpty (join "-" _)) eqn:E; intros H; inversion H; subst.
      * exact E.
      * reflexivity.
Qed.

Lemma mappers_id_spec :
  forall (env : Env) (w : World),
    (forall vessel ship w',
        mapZoneVesselToShip env vessel w = (Ok ship, w') ->
        nonEmpty (id ship) = true
        /\ (forall z, truthyZ (zv_mmsi vessel) = Some z ->
              id ship = String_of_Z z /\ mmsi ship = String_of_Z z /\ w' = w))
    /\ (forall vessel ship w',
        mapPortVesselToShip env vessel w = (Ok ship, w') ->
        nonEmpty (id ship) = true
        /\ (forall z, truthyZ (pv_mmsi vessel) = Some z ->
              id ship = String_of_Z z /\ mmsi ship = String_of_Z z /\ w' = w)).
Proof.
  intros env w. split.
  - intros vessel ship w' H. unfold mapZoneVesselToShip, bind in H.
    destruct (buildShipId env (zv_mmsi vessel) (zv_imo vessel) (zv_vessel_name vessel)
                (zv_received vessel) w) as [[id_ | e] w1] eqn:Hid; [| discriminate].
    unfold ret in H. inversion H; subst. cbn [id mmsi]. split.
    + eapply buildShipId_nonEmpty. exact Hid.
    + intros z Hz. unfold buildShipId in Hid. rewrite Hz in Hid.
      unfold ret in Hid. inversion Hid; subst. unfold String_or_empty. rewrite Hz. auto.
  - intros vessel ship w' H. unfold mapPortVesselToShip, bind in H.
    destruct (buildShipId env (pv_mmsi vessel) (pv_imo vessel) (pv_name vessel)
                match pv_arrived vessel with Some a => a | None => "" end w)
      as [[id_ | e] w1] eqn:Hid; [| discriminate].
    unfold ret in H. inversion H; subst. cbn [id mmsi]. split.
    + eapply buildShipId_nonEmpty. exact Hid.
    + intros z Hz. unfold buildShipId in Hid. rewrite Hz in Hid.
      unfold ret in Hid. inversion Hid; subst. unfold String_or_empty. rewrite Hz. auto.
Qed.

(** X12. Every ship a mapper returns has a non-empty id, whichever step of
    the fallback chain produced it; and when the record has a non-zero
    mmsi the id is that mmsi, the same string as the ship's [mmsi] field,
    and no clock was read for it. *)
Theorem ship_id_never_empty :
  forall (env : Env) (w : World),
    (forall vessel ship w',
        mapZoneVesselToShip env vessel w = (Ok ship, w') ->
        nonEmpty (id ship) = true
        /\ (forall z, truthyZ (zv_mmsi vessel) = Some z ->
              id ship = String_of_Z z /\ mmsi ship = String_of_Z z /\ w' = w))
    /\ (forall vessel ship w',
        mapPortVesselToShip env vessel w = (Ok ship, w') ->
        nonEmpty (id ship) = true
        /\ (forall z, truthyZ (pv_mmsi vessel) = Some z ->
              id ship = String_of_Z z /\ mmsi ship = String_of_Z z /\ w' = w)).
Proof. exact mappers_id_spec. Qed.

Lemma ship_id_witness :
  exists ship w',
    mapZoneVesselToShip countingEnv namedVessel emptyWorld = (Ok ship, w')
    /\ nonEmpty (id ship) = true
    /\ id ship = "247311100".
Proof.
  do 2 eexists. split; [reflexivity |]. split; [| reflexivity].
  apply (proj1 (proj1 (ship_id_never_empty countingEnv emptyWorld) namedVessel _ _ eq_refl)).
Defined.

(** ** Port mode *)

Lemma length_omap_le {A B : Type} (f : A -> option B) (l : list A) :
  (length (omap f l) <= length l)%nat.
Proof.
  induction l as [| x rest IH]; simpl; [lia |].
  unfold omap in IH. destruct (f x); simpl; lia.
Qed.

Lemma buildStatusMap_byMmsi (env : Env) (statuses : list MstZoneVessel) :
  forall (statusMap result : gmap string ShipSummary) (w w' : World),
    (forall key ship, statusMap !! key = Some ship -> byMmsi ship) ->
    buildStatusMap env statuses statusMap w = (Ok result, w') ->
    forall key ship, result !! key = Some ship -> byMmsi ship.
Proof.
  induction statuses as [| status_ rest IH]; intros statusMap result w w' Hinv Hrun.
  - simpl in Hrun. unfold ret in Hrun. inversion Hrun; subst. exact Hinv.
  - simpl in Hrun. destruct (truthyZ (zv_mmsi status_)) as [z |] eqn:Hz.
    + unfold bind at 1 in Hrun.
      destruct (mapZoneVesselToShip env status_ w) as [[mapped | e] w1] eqn:Hmap;
        [| discriminate].
      refine (IH _ _ _ _ _ Hrun).
      intros key ship Hlook. rewrite lookup_insert in Hlook.
      destruct (decide (String_of_Z z = key)).
      * inversion Hlook; subst.
        destruct (proj1 (mappers_id_spec env w) status_ ship w1 Hmap) as [_ Hm].
        destruct (Hm z Hz) as (Hid & Hmm & _). split; [congruence |].
        rewrite Hmm. apply String_of_Z_nonEmpty.
      * eapply Hinv. exact Hlook.
    + eapply IH; eassumption.
Qed.

Lemma mergePortVessel_byMmsi (portReference : PortReference)
  (statusMap : gmap string ShipSummary) (vessel : MstPortVessel) (ship : ShipSummary) :
  (forall key base, statusMap !! key = Some base -> byMmsi base) ->
  mergePortVessel portReference statusMap vessel = Some ship ->
  byMmsi ship
  /\ (forall n, ref_name portReference = Some n -> port_current ship = n).
Proof.
  intros Hinv. unfold mergePortVessel.
  destruct (truthyZ (pv_mmsi vessel)) as [z |]; [| discriminate].
  destruct (statusMap !! String_of_Z z) as [base |] eqn:Hbase; [| discriminate].
  intros H. inversion H; subst. split.
  - exact (Hinv _ _ Hbase).
  - intros n Hn. cbn [port_current]. rewrite Hn. reflexivity.
Qed.

Lemma getVesselsInPort_body_spec (rt : Runtime) (cfg : Config) (env : Env)
  (shipPort : option string) (w w' : World) (ships : list ShipSummary) :
  getVesselsInPort_body rt cfg env shipPort w = (Ok ships, w') ->
  (length ships <= MAX_PORT_VESSELS cfg)%nat /\ Forall byMmsi ships.
Proof.
  unfold getVesselsInPort_body. unfold bind at 1.
  destruct (resolvePortIdentifier rt cfg env shipPort w) as [[[portReference |] | e] w1];
    [| intros H; inversion H; subst; split; [simpl; lia | constructor] | discriminate].
  unfold bind at 1.
  destruct (client_getVesselsInPort rt cfg env portReference w1)
    as [[vesselsInPort | e] w2]; [| discriminate].
  set (withMmsi := firstn (MAX_PORT_VESSELS cfg)
                     (filter (fun vessel => is_Some (truthyZ (pv_mmsi vessel)))
                             vesselsInPort)).
  assert (length withMmsi <= MAX_PORT_VESSELS cfg)%nat as Hlen
    by apply firstn_le_length.
  destruct withMmsi as [| first rest] eqn:Hw.
  - intros H. inversion H; subst. split; [simpl; lia | constructor].
  - unfold bind at 1.
    destruct (getBulkVesselStatus rt cfg env _ w2) as [[statuses | e] w3]; [| discriminate].
    unfold bind at 1.
    destruct (buildStatusMap env statuses ∅ w3) as [[statusMap | e] w4] eqn:Hmap;
      [| discriminate].
    unfold ret. intros H.
    assert (ships = omap (mergePortVessel portReference statusMap) (first :: rest))
      as -> by congruence.
    split.
    + etransitivity; [apply length_omap_le | exact Hlen].
    + apply Forall_forall. intros ship Hin.
      apply list_elem_of_omap in Hin as (vessel & _ & Hmerge).
      eapply mergePortVessel_byMmsi; [| exact Hmerge].
      eapply buildStatusMap_byMmsi; [| exact Hmap].
      intros key s Hk. rewrite lookup_empty in Hk. discriminate.
Qed.

(** X10. Port mode always answers.  Whatever the input, the upstream and
    the cache, [getVesselsInPort] returns a list and never an error: any
    failure on the way, a validation error or an upstream failure alike,
    is answered with the empty list.  The list has at most
    [MAX_PORT_VESSELS] ships, and each of them is identified by a non-empty
    MMSI. *)
Theorem port_mode_always_answers :
  forall (rt : Runtime) (cfg : Config) (env : Env) (shipPort : option string) (w : World),
    exists ships w',
      getVesselsInPort rt cfg env shipPort w = (Ok ships, w')
      /\ (length ships <= MAX_PORT_VESSELS cfg)%nat
      /\ Forall (fun ship => id ship = mmsi ship /\ nonEmpty (mmsi ship) = true) ships
      /\ (forall e w1, getVesselsInPort_body rt cfg env shipPort w = (Throw e, w1) ->
            ships = [] /\ w' = w1).
Proof.
  intros rt cfg env shipPort w. unfold getVesselsInPort, catch.
  destruct (getVesselsInPort_body rt cfg env shipPort w) as [[ships | e] w1] eqn:Hbody.
  - exists ships, w1. destruct (getVesselsInPort_body_spec _ _ _ _ _ _ _ Hbody) as [Hlen Hby].
    split; [reflexivity |]. split; [exact Hlen |]. split; [exact Hby |].
    intros e w2 H. discriminate.
  - exists [], w1. split; [reflexivity |]. split; [simpl; lia |]. split; [constructor |].
    intros e' w2 H. inversion H. auto.
Qed.

(** X11. A port named by anything but digits or five letters is searched
    for upstream; when that search is not cached and the upstream answers
    it with a protocol failure, [getVesselsInPort] still returns the empty
    list, after one upstream call: the caller cannot tell the failure from
    a port without vessels. *)
Theorem port_search_failure_gives_empty_list :
  forall (rt : Runtime) (cfg : Config) (env : Env) (raw : string) (w : World)
         (response : HttpResponse) (e : Error),
    nonEmpty (trim raw) = true ->
    allDigits (trim raw) = false ->
    fiveLetters (trim raw) = false ->
    hasApiKey cfg = true ->
    cache w !! buildCacheKey "port/search"
                 (sanitizeParams rt [("name", PStr (trim raw))]) = None ->
    upstream env (length (fetched w))
      (requestCall rt "port/search" [("name", PStr (trim raw))]) = Responded response ->
    protocolFailure "port/search" response = Some e ->
    getVesselsInPort rt cfg env (Some raw) w
    = (Ok [], called (requestCall rt "port/search" [("name", PStr (trim raw))]) w).
Proof.
  intros rt cfg env raw w response e Hne Hd Hl Hkey Hmiss Hup Hfail.
  unfold getVesselsInPort, catch, getVesselsInPort_body. unfold bind at 1.
  rewrite (resolve_trimmed rt cfg env raw Hne), Hd, Hl.
  unfold bind at 1. unfold searchPorts. unfold bind at 1.
  rewrite (request_protocol_failure rt cfg env "port/search"
             [("name", PStr (trim raw))] (5 * 60 * 1000) w response e
             Hkey (or_intror Hmiss) Hup Hfail).
  reflexivity.
Qed.

Lemma port_search_failure_witness :
  getVesselsInPort sampleRuntime defaultConfig failingEnv (Some "Hamburg") emptyWorld
  = (Ok [], called (requestCall sampleRuntime "port/search" [("name", PStr (trim "Hamburg"))])
              emptyWorld).
Proof.
  apply (port_search_failure_gives_empty_list sampleRuntime defaultConfig failingEnv
           "Hamburg" emptyWorld
           {| ok := false; status := 402;
              body := Json {| env_status := "error"; env_data := PNull;
                              env_message := Some "No credits left";
                              env_code := Some "ERR_NO_CREDITS" |} |}
           (RequestFailed (inl "ERR_NO_CREDITS") "No credits left")).
  - reflexivity.
  - reflexivity.
  - reflexivity.
  - reflexivity.
  - apply lookup_empty.
  - reflexivity.
  - reflexivity.
Defined.

(** X13. A port given as digits that denote zero resolves to the port id 0,
    which the client refuses as no port at all: [getVesselsInPort] returns
    the empty list and the world is left as it was, no call made. *)
Theorem port_zero_is_no_port :
  forall (rt : Runtime) (cfg : Config) (env : Env) (raw : string) (w : World),
    allDigits raw = true ->
    num_truthy (Number_of_string rt raw) = false ->
    client_getVesselsInPort rt cfg env
      {| portId := Some (Number_of_string rt raw); unloco := None; ref_name := Some raw |} w
    = (Throw MissingPortReference, w)
    /\ getVesselsInPort rt cfg env (Some raw) w = (Ok [], w).
Proof.
  intros rt cfg env raw w Hd Hzero.
  assert (client_getVesselsInPort rt cfg env
            {| portId := Some (Number_of_string rt raw); unloco := None;
               ref_name := Some raw |} w
          = (Throw MissingPortReference, w)) as Hclient.
  { unfold client_getVesselsInPort. cbn [portId unloco opt_num_truthy opt_string_truthy].
    rewrite Hzero. reflexivity. }
  split; [exact Hclient |].
  unfold getVesselsInPort, catch, getVesselsInPort_body. unfold bind at 1.
  rewrite (resolve_digits rt cfg env raw w Hd).
  unfold bind at 1. rewrite Hclient. reflexivity.
Qed.

Lemma port_zero_witness :
  client_getVesselsInPort sampleRuntime defaultConfig quietEnv
    {| portId := Some (Number_of_string sampleRuntime "000"); unloco := None;
       ref_name := Some "000" |} emptyWorld
  = (Throw MissingPortReference, emptyWorld)
  /\ getVesselsInPort sampleRuntime defaultConfig quietEnv (Some "000") emptyWorld
     = (Ok [], emptyWorld).
Proof.
  apply (port_zero_is_no_port sampleRuntime defaultConfig quietEnv "000" emptyWorld).
  - reflexivity.
  - reflexivity.
Defined.

(** ** Boxes that pass normalisation *)

Lemma clampNumber_spec (x lo hi : Q) :
  (lo <= hi)%Q ->
  exists r, clampNumber (Fin x) (Fin lo) (Fin hi) = Fin r
            /\ (lo <= r)%Q /\ (r <= hi)%Q
            /\ ((x <= lo)%Q -> (r == lo)%Q)
            /\ ((hi <= x)%Q -> (r == hi)%Q)
            /\ ((lo <= x)%Q -> (x <= hi)%Q -> (r == x)%Q).
Proof.
  intros Hb. unfold clampNumber, Math_max.
  destruct (Qle_bool x lo) eqn:E1.
  - apply Qle_bool_iff in E1. unfold Math_min.
    destruct (Qle_bool lo hi) eqn:E2.
    + exists lo. repeat split; try lra.
    + apply Qle_bool_false in E2. lra.
  - apply Qle_bool_false in E1. unfold Math_min.
    destruct (Qle_bool x hi) eqn:E2.
    + apply Qle_bool_iff in E2. exists x. repeat split; try lra.
    + apply Qle_bool_false in E2. exists hi. repeat split; try lra.
Qed.

(** Clamping keeps the order of two numbers and does not push them apart. *)
Lemma clampNumber_pair (x y lo hi : Q) :
  (lo <= hi)%Q -> (x <= y)%Q ->
  exists rx ry,
    clampNumber (Fin x) (Fin lo) (Fin hi) = Fin rx
    /\ clampNumber (Fin y) (Fin lo) (Fin hi) = Fin ry
    /\ (lo <= rx)%Q /\ (rx <= ry)%Q /\ (ry <= hi)%Q /\ (ry - rx <= y - x)%Q.
Proof.
  intros Hb Hxy.
  destruct (clampNumber_spec x lo hi Hb) as (rx & Hrx & Hx1 & Hx2 & Hx3 & Hx4 & Hx5).
  destruct (clampNumber_spec y lo hi Hb) as (ry & Hry & Hy1 & Hy2 & Hy3 & Hy4 & Hy5).
  exists rx, ry. split; [exact Hrx |]. split; [exact Hry |]. split; [exact Hx1 |].
  destruct (Qlt_le_dec x lo) as [Hxl | Hxl]; destruct (Qlt_le_dec hi x) as [Hxh | Hxh];
    destruct (Qlt_le_dec y lo) as [Hyl | Hyl]; destruct (Qlt_le_dec hi y) as [Hyh | Hyh];
    try lra;
    try (assert (rx == lo)%Q by (apply Hx3; lra));
    try (assert (rx == hi)%Q by (apply Hx4; lra));
    try (assert (rx == x)%Q by (apply Hx5; lra));
    try (assert (ry == lo)%Q by (apply Hy3; lra));
    try (assert (ry == hi)%Q by (apply Hy4; lra));
    try (assert (ry == y)%Q by (apply Hy5; lra));
    repeat split; lra.
Qed.

Lemma min_max_fin (a b : Q) :
  exists mn mx,
    Math_min (Fin a) (Fin b) = Fin mn /\ Math_max (Fin a) (Fin b) = Fin mx
    /\ (mn <= mx)%Q.
Proof.
  unfold Math_min, Math_max. destruct (Qle_bool a b) eqn:E.
  - apply Qle_bool_iff in E. exists a, b. auto.
  - apply Qle_bool_false in E. exists b, a. repeat split. lra.
Qed.

(** The span test, passed: the corners are no further apart than the
    maximum, when there is one. *)
Lemma span_within (mn mx M : Q) :
  (mn <= mx)%Q ->
  num_gtb (Math_abs (num_sub (Fin mx) (Fin mn))) (Fin M) = false ->
  (mx - mn <= M)%Q.
Proof.
  intros Hord. unfold num_sub, num_lift2, Math_abs.
  destruct (Qle_bool 0 (Qred (mx - mn))) eqn:E.
  - unfold num_gtb. destruct (Qle_bool (Qred (mx - mn)) M) eqn:E2; [| discriminate].
    intros _. apply Qle_bool_iff in E2. rewrite Qred_correct in E2. exact E2.
  - apply Qle_bool_false in E. rewrite Qred_correct in E. lra.
Qed.

Lemma normalizeBox_ok (cfg : Config) (a b c d : Q) (box' : BoundingBox) :
  normalizeBox cfg {| minLat := Fin a; maxLat := Fin b; minLon := Fin c; maxLon := Fin d |}
  = Ok box' ->
  wellFormedBox box'
  /\ (forall M a' b', MAX_LAT_SPAN cfg = Fin M ->
        minLat box' = Fin a' -> maxLat box' = Fin b' -> (b' - a' <= M)%Q)
  /\ (forall M c' d', MAX_LON_SPAN cfg = Fin M ->
        minLon box' = Fin c' -> maxLon box' = Fin d' -> (d' - c' <= M)%Q).
Proof.
  unfold normalizeBox, latSpan, lonSpan. cbn [minLat maxLat minLon maxLon].
  destruct (min_max_fin a b) as (mnA & mxA & -> & -> & HordA).
  destruct (min_max_fin c d) as (mnC & mxC & -> & -> & HordC).
  destruct (num_gtb (Math_abs (num_sub (Fin mxA) (Fin mnA))) (MAX_LAT_SPAN cfg)) eqn:ElA;
    [discriminate |].
  destruct (num_gtb (Math_abs (num_sub (Fin mxC) (Fin mnC))) (MAX_LON_SPAN cfg)) eqn:ElC;
    [discriminate |].
  simpl orb. cbv iota. intros H. inversion H; subst. clear H.
  change (num_of_Z (-90)) with (Fin (-90)). change (num_of_Z 90) with (Fin 90).
  change (num_of_Z (-180)) with (Fin (-180)). change (num_of_Z 180) with (Fin 180).
  destruct (clampNumber_pair mnA mxA (-90) 90) as (a' & b' & -> & -> & Ha1 & Ha2 & Ha3 & Ha4);
    [lra | exact HordA |].
  destruct (clampNumber_pair mnC mxC (-180) 180)
    as (c' & d' & -> & -> & Hc1 & Hc2 & Hc3 & Hc4); [lra | exact HordC |].
  split; [| split].
  - exists a', b', c', d'. repeat split; assumption.
  - intros M a0 b0 HM Ha0 Hb0. cbn [minLat maxLat] in *.
    inversion Ha0; inversion Hb0; subst. rewrite HM in ElA.
    pose proof (span_within mnA mxA M HordA ElA). lra.
  - intros M c0 d0 HM Hc0 Hd0. cbn [minLon maxLon] in *.
    inversion Hc0; inversion Hd0; subst. rewrite HM in ElC.
    pose proof (span_within mnC mxC M HordC ElC). lra.
Qed.

(** X14. A box with finite corners that [normalizeBox] accepts comes out
    with its corners in order (south before north, west before east),
    inside the valid latitudes and longitudes, and no taller or wider than
    the configured maximum spans. *)
Theorem normalized_box_is_valid :
  forall (cfg : Config) (a b c d : Q) (box' : BoundingBox),
    normalizeBox cfg {| minLat := Fin a; maxLat := Fin b; minLon := Fin c; maxLon := Fin d |}
    = Ok box' ->
    exists a' b' c' d',
      box' = {| minLat := Fin a'; maxLat := Fin b'; minLon := Fin c'; maxLon := Fin d' |}
      /\ (-90 <= a')%Q /\ (a' <= b')%Q /\ (b' <= 90)%Q
      /\ (-180 <= c')%Q /\ (c' <= d')%Q /\ (d' <= 180)%Q
      /\ (forall M, MAX_LAT_SPAN cfg = Fin M -> (b' - a' <= M)%Q)
      /\ (forall M, MAX_LON_SPAN cfg = Fin M -> (d' - c' <= M)%Q).
Proof.
  intros cfg a b c d box' H.
  destruct (normalizeBox_ok cfg a b c d box' H)
    as ((a' & b' & c' & d' & -> & H1 & H2 & H3 & H4 & H5 & H6) & Hlat & Hlon).
  exists a', b', c', d'. repeat split; try assumption.
  - intros M HM. exact (Hlat M a' b' HM eq_refl eq_refl).
  - intros M HM. exact (Hlon M c' d' HM eq_refl eq_refl).
Qed.

(** A box given north-east corner first. *)
Lemma normalized_box_witness :
  exists a' b' c' d',
    {| minLat := 36; maxLat := 41; minLon := 10; maxLon := 18 |}
    = {| minLat := Fin a'; maxLat := Fin b'; minLon := Fin c'; maxLon := Fin d' |}
    /\ (-90 <= a')%Q /\ (a' <= b')%Q /\ (b' <= 90)%Q
    /\ (-180 <= c')%Q /\ (c' <= d')%Q /\ (d' <= 180)%Q
    /\ (forall M, MAX_LAT_SPAN defaultConfig = Fin M -> (b' - a' <= M)%Q)
    /\ (forall M, MAX_LON_SPAN defaultConfig = Fin M -> (d' - c' <= M)%Q).
Proof.
  apply (normalized_box_is_valid defaultConfig 41 36 18 10).
  reflexivity.
Defined.

(** ** Tokenisation *)

Lemma preset_finite (key : string) (box : BoundingBox) :
  lookupParam key AREA_PRESETS = Some box -> finiteBox box.
Proof.
  unfold AREA_PRESETS, lookupParam.
  repeat (destruct (String.eqb _ key);
          [intros H; inversion H; subst; do 4 eexists; reflexivity |]).
  discriminate.
Qed.

Lemma parsed_box_finite (rt : Runtime) (token : string) (box : BoundingBox) :
  parseBoundingBoxToken rt token = Some box -> finiteBox box.
Proof.
  unfold parseBoundingBoxToken.
  destruct (negb (nonEmpty (trim token))); [discriminate |].
  destruct (lookupParam (toUpperCase (trim token)) AREA_PRESETS) as [preset |] eqn:E.
  - intros H. inversion H; subst. exact (preset_finite _ _ E).
  - destruct (startsWith (toLowerCase (trim token)) "bbox:"); [| discriminate].
    destruct (nth_error _ 1) as [coords |]; [| discriminate].
    destruct (map (Number_of_string rt) (split "|" coords))
      as [| v0 [| v1 [| v2 [| v3 [| v4 rest]]]]]; try discriminate.
    destruct v0 as [| a]; [simpl; discriminate |].
    destruct v1 as [| b]; [simpl; discriminate |].
    destruct v2 as [| c]; [simpl; discriminate |].
    destruct v3 as [| d]; [simpl; discriminate |].
    simpl. intros H. inversion H; subst. exists a, c, b, d. reflexivity.
Qed.

Lemma WMED_wellFormed : wellFormedBox WMED.
Proof.
  exists 34%Q, 42%Q, (-6)%Q, 15%Q. split; [reflexivity |].
  repeat split; discriminate.
Qed.

Lemma mapOutcome_normalizeBox_ok (cfg : Config) (boxes : list BoundingBox) :
  forall normalized,
    Forall finiteBox boxes ->
    mapOutcome (normalizeBox cfg) boxes = Ok normalized ->
    Forall wellFormedBox normalized /\ length normalized = length boxes.
Proof.
  induction boxes as [| box rest IH]; intros normalized Hfin H; simpl in H.
  - inversion H; subst. split; [constructor | reflexivity].
  - apply Forall_cons in Hfin as [(a & b & c & d & ->) Hrest].
    destruct (normalizeBox cfg _) as [box' |] eqn:E; [| discriminate].
    destruct (mapOutcome (normalizeBox cfg) rest) as [rest' |]; [| discriminate].
    inversion H; subst. destruct (IH rest' Hrest eq_refl) as [Hwf Hlen]. split.
    + constructor; [| exact Hwf]. exact (proj1 (normalizeBox_ok cfg a b c d box' E)).
    + simpl. rewrite Hlen. reflexivity.
Qed.

Lemma areaTokens_parsed_finite (rt : Runtime) (expression : string) :
  Forall finiteBox (omap (parseBoundingBoxToken rt) (areaTokens expression)).
Proof.
  apply Forall_forall. intros box Hin.
  apply list_elem_of_omap in Hin as (token & _ & Hparse).
  exact (parsed_box_finite rt token box Hparse).
Qed.

Lemma tokenize_spec (rt : Runtime) (cfg : Config) (expression : string)
  (boxes : list BoundingBox) :
  tokenizeAreaExpression rt cfg expression = Ok boxes ->
  boxes <> []
  /\ Forall wellFormedBox boxes
  /\ (length boxes <= Nat.max 1 (length (areaTokens expression)))%nat.
Proof.
  unfold tokenizeAreaExpression.
  destruct (negb (nonEmpty expression)).
  - intros H. inversion H; subst. split; [discriminate |].
    split; [repeat constructor; apply WMED_wellFormed | simpl; lia].
  - destruct (mapOutcome (normalizeBox cfg) _) as [normalized |] eqn:E; [| discriminate].
    destruct (mapOutcome_normalizeBox_ok cfg _ normalized
                (areaTokens_parsed_finite rt expression) E) as [Hwf Hlen].
    pose proof (length_omap_le (parseBoundingBoxToken rt) (areaTokens expression)) as Hle.
    destruct normalized as [| first rest].
    + intros H. inversion H; subst. split; [discriminate |].
      split; [repeat constructor; apply WMED_wellFormed | simpl; lia].
    + intros H. inversion H; subst. split; [discriminate |].
      split; [exact Hwf | lia].
Qed.

(** X15. Whenever tokenisation succeeds it yields at least one box, never
    more boxes than the expression has tokens (one when it has none), and
    every box is well formed: finite corners in order, inside the valid
    latitudes and longitudes. *)
Theorem tokenized_boxes_are_well_formed :
  forall (rt : Runtime) (cfg : Config) (expression : string) (boxes : list BoundingBox),
    tokenizeAreaExpression rt cfg expression = Ok boxes ->
    boxes <> []
    /\ Forall wellFormedBox boxes
    /\ (length boxes <= Nat.max 1 (length (areaTokens expression)))%nat.
Proof. intros rt cfg expression boxes. apply tokenize_spec. Qed.

Lemma tokenized_boxes_witness :
  [ {| minLat := 34; maxLat := 42; minLon := (-6); maxLon := 15 |};
    {| minLat := 36; maxLat := 41; minLon := 10; maxLon := 18 |} ] <> []
  /\ Forall wellFormedBox
       [ {| minLat := 34; maxLat := 42; minLon := (-6); maxLon := 15 |};
         {| minLat := 36; maxLat := 41; minLon := 10; maxLon := 18 |} ]
  /\ (2 <= Nat.max 1 (length (areaTokens " wmed ,bbox:41|18|36|10, junk")))%nat.
Proof.
  apply (tokenized_boxes_are_well_formed sampleRuntime defaultConfig
           " wmed ,bbox:41|18|36|10, junk").
  reflexivity.
Defined.

(** X16. An expression without a single token that parses, the empty
    expression included, falls back to the Western Mediterranean box, and
    it does so under every configuration: the fallback box is not put to
    the span test, so it is returned even where the same box, asked for by
    its name, is refused as too large. *)
Theorem unparsable_expression_falls_back :
  forall (rt : Runtime) (cfg : Config) (expression : string),
    omap (parseBoundingBoxToken rt) (areaTokens expression) = [] ->
    tokenizeAreaExpression rt cfg expression = Ok [WMED]
    /\ (num_gtb (latSpan WMED) (MAX_LAT_SPAN cfg) = true ->
        tokenizeAreaExpression rt cfg "WMED"
        = Throw (BoxTooLarge (latSpan WMED) (lonSpan WMED))).
Proof.
  intros rt cfg expression Hnone. split.
  - unfold tokenizeAreaExpression. rewrite Hnone.
    destruct (negb (nonEmpty expression)); reflexivity.
  - intros Hbig. unfold tokenizeAreaExpression.
    change (omap (parseBoundingBoxToken rt) (areaTokens "WMED")) with [WMED].
    simpl mapOutcome. rewrite (normalizeBox_rejects cfg WMED (or_introl Hbig)).
    reflexivity.
Qed.

Lemma unparsable_expression_witness :
  tokenizeAreaExpression sampleRuntime defaultConfig "atlantis,,bbox:1|2|3" = Ok [WMED]
  /\ (num_gtb (latSpan WMED) (MAX_LAT_SPAN defaultConfig) = true ->
      tokenizeAreaExpression sampleRuntime defaultConfig "WMED"
      = Throw (BoxTooLarge (latSpan WMED) (lonSpan WMED))).
Proof.
  apply (unparsable_expression_falls_back sampleRuntime defaultConfig "atlantis,,bbox:1|2|3").
  reflexivity.
Defined.

(** ** The budget of upstream calls *)

Lemma callsWithin_ret {A : Type} (a : A) (n : nat) : callsWithin n (ret a).
Proof. intros w. exists []. simpl. rewrite app_nil_r. split; [reflexivity | lia]. Qed.

Lemma callsWithin_throw {A : Type} (e : Error) (n : nat) : callsWithin n (@throw A e).
Proof. intros w. exists []. simpl. rewrite app_nil_r. split; [reflexivity | lia]. Qed.

Lemma callsWithin_lift {A : Type} (o : Outcome A) (n : nat) : callsWithin n (lift o).
Proof. intros w. exists []. simpl. rewrite app_nil_r. split; [reflexivity | lia]. Qed.

Lemma callsWithin_weaken {A : Type} (m : M A) (n n' : nat) :
  (n <= n')%nat -> callsWithin n m -> callsWithin n' m.
Proof.
  intros Hle H w. destruct (H w) as (calls & Hf & Hlen). exists calls. split; [exact Hf | lia].
Qed.

Lemma callsWithin_bind {A B : Type} (m : M A) (k : A -> M B) (n n' : nat) :
  callsWithin n m -> (forall a, callsWithin n' (k a)) -> callsWithin (n + n') (bind m k).
Proof.
  intros Hm Hk w. unfold bind. destruct (Hm w) as (calls & Hf & Hlen).
  destruct (m w) as [[a | e] w1]; simpl in *.
  - destruct (Hk a w1) as (calls' & Hf' & Hlen'). exists (calls ++ calls')%list.
    rewrite Hf', Hf, <- app_assoc. split; [reflexivity |].
    rewrite length_app. lia.
  - exists calls. split; [exact Hf | lia].
Qed.

Lemma callsWithin_catch {A : Type} (m : M A) (h : Error -> M A) (n n' : nat) :
  callsWithin n m -> (forall e, callsWithin n' (h e)) -> callsWithin (n + n') (catch m h).
Proof.
  intros Hm Hh w. unfold catch. destruct (Hm w) as (calls & Hf & Hlen).
  destruct (m w) as [[a | e] w1]; simpl in *.
  - exists calls. split; [exact Hf | lia].
  - destruct (Hh e w1) as (calls' & Hf' & Hlen'). exists (calls ++ calls')%list.
    rewrite Hf', Hf, <- app_assoc. split; [reflexivity |].
    rewrite length_app. lia.
Qed.

Lemma callsWithin_same_but_ticks {A : Type} (m : M A) :
  preserves same_but_ticks m -> callsWithin 0 m.
Proof.
  intros H w. destruct (H w) as (_ & Hf & _). exists [].
  rewrite Hf, app_nil_r. split; [reflexivity | simpl; lia].
Qed.

Lemma request_callsWithin (rt : Runtime) (cfg : Config) (env : Env) (path : string)
  (params : list (string * PVal)) (ttl : Z) :
  callsWithin 1 (request rt cfg env path params ttl).
Proof.
  intros w. destruct (request_at_most_one_call rt cfg env path params ttl w) as [H | H].
  - exists []. rewrite H, app_nil_r. split; [reflexivity | simpl; lia].
  - exists [requestCall rt path params]. split; [exact H | simpl; lia].
Qed.

Lemma log_zone_query_callsWithin (q : ZoneQuery) : callsWithin 0 (log_zone_query q).
Proof. intros w. exists []. simpl. rewrite app_nil_r. split; [reflexivity | lia]. Qed.

Lemma getVesselsInZone_callsWithin (rt : Runtime) (cfg : Config) (env : Env)
  (query : ZoneQuery) :
  callsWithin 1 (getVesselsInZone rt cfg env query).
Proof.
  unfold getVesselsInZone.
  apply (callsWithin_bind _ _ 0 1); [apply log_zone_query_callsWithin |]. intros _.
  apply (callsWithin_bind _ _ 1 0); [apply request_callsWithin |]. intros data.
  unfold asZoneVessels. destruct data; (apply callsWithin_ret || apply callsWithin_throw).
Qed.

Lemma mergeVessels_callsWithin (env : Env) (vessels : list MstZoneVessel)
  (dedup : list (string * ShipSummary)) :
  callsWithin 0 (mergeVessels env vessels dedup).
Proof.
  intros w. destruct (mergeVessels_spec env vessels dedup w) as (added & w' & H & Ht & _).
  rewrite H. destruct Ht as (_ & Hf & _). exists []. simpl.
  rewrite Hf, app_nil_r. split; [reflexivity | lia].
Qed.

Lemma areaLoop_callsWithin (rt : Runtime) (cfg : Config) (env : Env) (mb : num)
  (boxes : list BoundingBox) :
  forall dedup, callsWithin (length boxes) (areaLoop rt cfg env mb boxes dedup).
Proof.
  induction boxes as [| box rest IH]; intros dedup; simpl.
  - apply callsWithin_ret.
  - apply (callsWithin_bind _ _ 1 (length rest)); [apply getVesselsInZone_callsWithin |].
    intros vessels.
    apply (callsWithin_bind _ _ 0 (length rest)); [apply mergeVessels_callsWithin |].
    intros dedup'. destruct (MAX_RESULTS cfg <=? length dedup')%nat;
      [apply callsWithin_ret | apply IH].
Qed.

Lemma fetchVesselsInArea_callsWithin (rt : Runtime) (cfg : Config) (env : Env)
  (expression : string) (mb : option num) :
  callsWithin (Nat.max 1 (length (areaTokens expression)))
    (fetchVesselsInArea rt cfg env expression mb).
Proof.
  intros w. unfold fetchVesselsInArea, bind, lift.
  destruct (tokenizeAreaExpression rt cfg expression) as [boxes | e] eqn:Htok.
  - destruct (tokenize_spec rt cfg expression boxes Htok) as (_ & _ & Hlen).
    destruct (areaLoop_callsWithin rt cfg env (formatMinutesBack cfg mb) boxes [] w)
      as (calls & Hf & Hl).
    exists calls. split; [| lia].
    destruct (areaLoop rt cfg env (formatMinutesBack cfg mb) boxes [] w)
      as [[dedup | e] w1]; exact Hf.
  - exists []. simpl. rewrite app_nil_r. split; [reflexivity | lia].
Qed.

Lemma fetchVesselsNearMe_callsWithin (rt : Runtime) (cfg : Config) (env : Env)
  (lat_ lon_ d : num) (mb : option num) :
  callsWithin 1 (fetchVesselsNearMe rt cfg env lat_ lon_ d mb).
Proof.
  unfold fetchVesselsNearMe.
  apply (callsWithin_bind _ _ 1 0); [apply getVesselsInZone_callsWithin |]. intros vessels.
  apply (callsWithin_bind _ _ 0 0); [| intros mapped; apply callsWithin_ret].
  apply callsWithin_same_but_ticks. apply preserves_mapM; try typeclasses eauto.
  intros vessel. apply mapZoneVesselToShip_ticks.
Qed.

Lemma searchPorts_callsWithin (rt : Runtime) (cfg : Config) (env : Env) (portName : string) :
  callsWithin 1 (searchPorts rt cfg env portName).
Proof.
  unfold searchPorts.
  apply (callsWithin_bind _ _ 1 0); [apply request_callsWithin |]. intros data.
  unfold asPorts. destruct data; (apply callsWithin_ret || apply callsWithin_throw).
Qed.

Lemma resolvePortIdentifier_callsWithin (rt : Runtime) (cfg : Config) (env : Env)
  (rawInput : option string) :
  callsWithin 1 (resolvePortIdentifier rt cfg env rawInput).
Proof.
  unfold resolvePortIdentifier. destruct rawInput as [raw |]; [| apply callsWithin_ret].
  destruct (negb (nonEmpty raw)); [apply callsWithin_ret |].
  destruct (negb (nonEmpty (trim raw))); [apply callsWithin_ret |].
  destruct (allDigits (trim raw)); [apply callsWithin_ret |].
  destruct (fiveLetters (trim raw)); [apply callsWithin_ret |].
  apply (callsWithin_bind _ _ 1 0); [apply searchPorts_callsWithin |].
  intros [| first rest]; apply callsWithin_ret.
Qed.

Lemma client_getVesselsInPort_callsWithin (rt : Runtime) (cfg : Config) (env : Env)
  (options : PortReference) :
  callsWithin 1 (client_getVesselsInPort rt cfg env options).
Proof.
  unfold client_getVesselsInPort.
  destruct (negb (opt_num_truthy (portId options))
            && negb (opt_string_truthy (unloco options))); [apply callsWithin_throw |].
  apply (callsWithin_bind _ _ 1 0); [apply request_callsWithin |]. intros data.
  unfold asPortVessels. destruct data; (apply callsWithin_ret || apply callsWithin_throw).
Qed.

Lemma getBulkVesselStatus_callsWithin (rt : Runtime) (cfg : Config) (env : Env)
  (query : BulkStatusQuery) :
  callsWithin 1 (getBulkVesselStatus rt cfg env query).
Proof.
  unfold getBulkVesselStatus.
  destruct (negb (hasIdentifiers (bq_mmsi query)) && negb (hasIdentifiers (bq_imo query)));
    [apply callsWithin_throw |].
  apply (callsWithin_bind _ _ 1 0); [apply request_callsWithin |]. intros data.
  unfold asZoneVessels. destruct data; (apply callsWithin_ret || apply callsWithin_throw).
Qed.

Lemma buildStatusMap_ticks (env : Env) (statuses : list MstZoneVessel) :
  forall statusMap, preserves same_but_ticks (buildStatusMap env statuses statusMap).
Proof.
  induction statuses as [| status_ rest IH]; intros statusMap; simpl.
  - apply preserves_ret; typeclasses eauto.
  - destruct (truthyZ (zv_mmsi status_)); [| apply IH].
    apply preserves_bind; [typeclasses eauto | apply mapZoneVesselToShip_ticks |].
    intros mapped. apply IH.
Qed.

Lemma getVesselsInPort_callsWithin (rt : Runtime) (cfg : Config) (env : Env)
  (shipPort : option string) :
  callsWithin 3 (getVesselsInPort rt cfg env shipPort).
Proof.
  unfold getVesselsInPort.
  apply (callsWithin_weaken _ (3 + 0)); [lia |].
  apply callsWithin_catch; [| intros e; apply callsWithin_ret].
  unfold getVesselsInPort_body.
  apply (callsWithin_bind _ _ 1 2); [apply resolvePortIdentifier_callsWithin |].
  intros [portReference |]; [| apply callsWithin_ret].
  apply (callsWithin_bind _ _ 1 1); [apply client_getVesselsInPort_callsWithin |].
  intros vesselsInPort.
  destruct (firstn _ _) as [| first rest]; [apply callsWithin_ret |].
  apply (callsWithin_bind _ _ 1 0); [apply getBulkVesselStatus_callsWithin |].
  intros statuses.
  apply (callsWithin_bind _ _ 0 0);
    [apply callsWithin_same_but_ticks; apply buildStatusMap_ticks |].
  intros statusMap. apply callsWithin_ret.
Qed.

(** X17. The budget of upstream calls.  Whatever the upstream answers and
    whatever the outcome, a near-me search makes at most one upstream
    call, an area search at most one per token of its expression (one for
    an expression without tokens), and a port query at most three (the
    port search, the port listing, the bulk status); no call is ever
    repeated. *)
Theorem searches_stay_within_call_budget :
  forall (rt : Runtime) (cfg : Config) (env : Env),
    (forall lat_ lon_ d mb, callsWithin 1 (fetchVesselsNearMe rt cfg env lat_ lon_ d mb))
    /\ (forall expression mb,
          callsWithin (Nat.max 1 (length (areaTokens expression)))
            (fetchVesselsInArea rt cfg env expression mb))
    /\ (forall shipPort, callsWithin 3 (getVesselsInPort rt cfg env shipPort)).
Proof.
  intros rt cfg env. split; [| split].
  - apply fetchVesselsNearMe_callsWithin.
  - apply fetchVesselsInArea_callsWithin.
  - apply getVesselsInPort_callsWithin.
Qed.

(** ** What the searches return, and what the client checks first *)

Lemma mapZoneResults_plottable (cfg : Config) (vessels : list ShipSummary) :
  Forall plottable (mapZoneResults cfg vessels).
Proof.
  unfold mapZoneResults. apply Forall_take. apply Forall_forall. intros ship Hin.
  apply list_elem_of_filter in Hin as [Hkeep _].
  apply andb_true_iff in Hkeep as [Hlat Hlon].
  split; apply negb_true_iff; assumption.
Qed.

Lemma fetchVesselsNearMe_inv (rt : Runtime) (cfg : Config) (env : Env)
  (lat_ lon_ d : num) (mb : option num) (w w' : World) (result : list ShipSummary) :
  fetchVesselsNearMe rt cfg env lat_ lon_ d mb w = (Ok result, w') ->
  exists mapped, result = mapZoneResults cfg mapped.
Proof.
  unfold fetchVesselsNearMe. unfold bind at 1.
  destruct (getVesselsInZone rt cfg env _ w) as [[vessels | e] w1]; [| discriminate].
  unfold bind at 1.
  destruct (mapM (mapZoneVesselToShip env) vessels w1) as [[mapped | e] w2]; [| discriminate].
  unfold ret. intros H. exists mapped. congruence.
Qed.

(** X18. What the two searches hand to the map can be plotted and is
    capped: every ship returned by a near-me search or an area search has
    a latitude and a longitude that are numbers, and a near-me search
    returns at most [MAX_RESULTS] ships, as an area search does. *)
Theorem search_results_are_plottable :
  forall (rt : Runtime) (cfg : Config) (env : Env) (mb : option num) (w : World),
    (forall lat_ lon_ d ships w',
        fetchVesselsNearMe rt cfg env lat_ lon_ d mb w = (Ok ships, w') ->
        (length ships <= MAX_RESULTS cfg)%nat /\ Forall plottable ships)
    /\ (forall expression ships w',
        fetchVesselsInArea rt cfg env expression mb w = (Ok ships, w') ->
        (length ships <= MAX_RESULTS cfg)%nat /\ Forall plottable ships).
Proof.
  intros rt cfg env mb w. split.
  - intros lat_ lon_ d ships w' H.
    apply fetchVesselsNearMe_inv in H as [mapped ->].
    split; [apply mapZoneResults_length | apply mapZoneResults_plottable].
  - intros expression ships w' H.
    apply fetchVesselsInArea_inv in H as (boxes & dedup & _ & _ & ->).
    split; [apply mapZoneResults_length | apply mapZoneResults_plottable].
Qed.

Lemma request_throws_no_validationError (rt : Runtime) (cfg : Config) (env : Env)
  (path : string) (params : list (string * PVal)) (cacheMs : Z) (w w' : World) (e : Error) :
  request rt cfg env path params cacheMs w = (Throw e, w') -> validationError e = false.
Proof.
  assert (forall key w0 w1,
             request_upstream cfg env path (sanitizeParams rt params) key cacheMs w0
             = (Throw e, w1) -> validationError e = false) as Hup.
  { intros key w0 w1. unfold request_upstream, apiKey. unfold bind at 1.
    destruct (MST_API_KEY cfg) as [k |]; [destruct (nonEmpty k) |];
      try (unfold throw; intros H; inversion H; reflexivity).
    unfold ret at 1. unfold bind at 1, fetch.
    destruct (upstream env (length (fetched w0)) _) as [why | response];
      [intros H; inversion H; reflexivity |].
    destruct (body response) as [why | | envelope];
      try (unfold throw; intros H; inversion H; reflexivity).
    destruct (negb (ok response) || negb (String.eqb (env_status envelope) "success"));
      [unfold throw; intros H; inversion H; reflexivity |].
    destruct (0 <? cacheMs); unfold bind, writeCache, bind, Date_now, set_cache, ret;
      try destruct (cacheMs <=? 0); discriminate. }
  unfold request. unfold bind at 1.
  destruct (0 <? cacheMs).
  - unfold readCache. unfold bind at 1, get_cache.
    destruct (cache w !! _) as [entry |]; [| apply Hup].
    unfold bind at 1, Date_now.
    destruct (expiresAt entry <? _).
    + unfold bind at 1, set_cache, ret. apply Hup.
    + unfold ret. destruct (payload_truthy (payload entry)); [discriminate | apply Hup].
  - unfold ret at 1. apply Hup.
Qed.

Lemma asZoneVessels_throws_no_validationError (p : Payload) (w w' : World) (e : Error) :
  asZoneVessels p w = (Throw e, w') -> validationError e = false.
Proof. destruct p; unfold asZoneVessels, ret, throw; intros H; inversion H; reflexivity. Qed.

Lemma asPortVessels_throws_no_validationError (p : Payload) (w w' : World) (e : Error) :
  asPortVessels p w = (Throw e, w') -> validationError e = false.
Proof. destruct p; unfold asPortVessels, ret, throw; intros H; inversion H; reflexivity. Qed.

(** X19. The client checks its input before anything else.  A status
    lookup fails with the missing-identifier error exactly when neither
    [mmsi] nor [imo] is truthy, a port listing fails with the
    missing-reference error exactly when neither [portId] nor [unloco] is,
    a bulk lookup fails with its missing-identifiers error exactly when
    neither list has an entry; such a failure leaves the world as it was,
    with no credential read and no upstream call. *)
Theorem client_validates_before_network :
  forall (rt : Runtime) (cfg : Config) (env : Env) (w : World),
    (forall params,
        (fst (getVesselStatus rt cfg env params w) = Throw MissingVesselIdentifier
         <-> pval_truthy (lookupParam "mmsi" params) = false
             /\ pval_truthy (lookupParam "imo" params) = false)
        /\ (fst (getVesselStatus rt cfg env params w) = Throw MissingVesselIdentifier ->
            snd (getVesselStatus rt cfg env params w) = w))
    /\ (forall options,
        (fst (client_getVesselsInPort rt cfg env options w) = Throw MissingPortReference
         <-> opt_num_truthy (portId options) = false
             /\ opt_string_truthy (unloco options) = false)
        /\ (fst (client_getVesselsInPort rt cfg env options w) = Throw MissingPortReference ->
            snd (client_getVesselsInPort rt cfg env options w) = w))
    /\ (forall query,
        (fst (getBulkVesselStatus rt cfg env query w) = Throw MissingBulkIdentifiers
         <-> hasIdentifiers (bq_mmsi query) = false
             /\ hasIdentifiers (bq_imo query) = false)
        /\ (fst (getBulkVesselStatus rt cfg env query w) = Throw MissingBulkIdentifiers ->
            snd (getBulkVesselStatus rt cfg env query w) = w)).
Proof.
  intros rt cfg env w.
  assert (forall (A : Type) (o : Outcome A) (w0 : World) (bad : Error),
             validationError bad = true ->
             (forall e, o = Throw e -> validationError e = false) ->
             (fst (o, w0) = Throw bad <-> false = false /\ true = false)
             /\ (fst (o, w0) = Throw bad -> snd (o, w0) = w)) as Hnet.
  { intros A o w0 bad Hbad Hno. simpl. split; [split |].
    - intros H. rewrite (Hno _ H) in Hbad. discriminate Hbad.
    - intros [_ H]. discriminate H.
    - intros H. rewrite (Hno _ H) in Hbad. discriminate Hbad. }
  assert (forall (A : Type) (o : Outcome A) (w0 : World) (bad : Error) (a b : bool),
             a || b = true ->
             validationError bad = true ->
             (forall e, o = Throw e -> validationError e = false) ->
             (fst (o, w0) = Throw bad <-> a = false /\ b = false)
             /\ (fst (o, w0) = Throw bad -> snd (o, w0) = w)) as Hgo.
  { intros A o w0 bad a b Hab Hbad Hno. simpl. split; [split |].
    - intros H. rewrite (Hno _ H) in Hbad. discriminate Hbad.
    - intros [-> ->]. discriminate Hab.
    - intros H. rewrite (Hno _ H) in Hbad. discriminate Hbad. }
  clear Hnet.
  split; [| split].
  - intros params. unfold getVesselStatus.
    destruct (pval_truthy (lookupParam "mmsi" params)) eqn:Hm;
      destruct (pval_truthy (lookupParam "imo" params)) eqn:Hi; cbn [negb andb];
      try (split; [split; [intros _; split; reflexivity | intros _; reflexivity]
                  | intros _; reflexivity]);
      (destruct (request rt cfg env "vessel" params 0 w) as [o w1] eqn:Hreq;
       apply Hgo; [reflexivity | reflexivity |];
       intros e ->; exact (request_throws_no_validationError _ _ _ _ _ _ _ _ _ Hreq)).
  - intros options. unfold client_getVesselsInPort.
    destruct (opt_num_truthy (portId options)) eqn:Hp;
      destruct (opt_string_truthy (unloco options)) eqn:Hu; cbn [negb andb];
      try (split; [split; [intros _; split; reflexivity | intros _; reflexivity]
                  | intros _; reflexivity]);
      (unfold bind;
       match goal with
       | |- context [request rt cfg env ?path ?ps ?ttl w] =>
           destruct (request rt cfg env path ps ttl w) as [[p | e0] w1] eqn:Hreq
       end;
       [destruct (asPortVessels p w1) as [o w2] eqn:Has;
        apply Hgo; [reflexivity | reflexivity |];
        intros e ->; exact (asPortVessels_throws_no_validationError _ _ _ _ Has)
       | apply Hgo; [reflexivity | reflexivity |];
         intros e He; inversion He; subst;
         exact (request_throws_no_validationError _ _ _ _ _ _ _ _ _ Hreq)]).
  - intros query. unfold getBulkVesselStatus. cbv zeta.
    destruct (hasIdentifiers (bq_mmsi query)) eqn:Hm;
      destruct (hasIdentifiers (bq_imo query)) eqn:Hi; cbn [negb andb];
      try (split; [split; [intros _; split; reflexivity | intros _; reflexivity]
                  | intros _; reflexivity]);
      (unfold bind;
       match goal with
       | |- context [request rt cfg env ?path ?ps ?ttl w] =>
           destruct (request rt cfg env path ps ttl w) as [[p | e0] w1] eqn:Hreq
       end;
       [destruct (asZoneVessels p w1) as [o w2] eqn:Has;
        apply Hgo; [reflexivity | reflexivity |];
        intros e ->; exact (asZoneVessels_throws_no_validationError _ _ _ _ Has)
       | apply Hgo; [reflexivity | reflexivity |];
         intros e He; inversion He; subst;
         exact (request_throws_no_validationError _ _ _ _ _ _ _ _ _ Hreq)]).
Qed.

(** ** The join of port mode *)

Lemma String_of_Z_inj (a b : Z) : String_of_Z a = String_of_Z b -> a = b.
Proof.
  unfold String_of_Z. intros H. apply DecimalZ.to_int_inj.
  assert (forall z, NilZero.int_of_string (NilZero.string_of_int (Z.to_int z))
                    = Some (Z.to_int z)) as Hisi.
  { intros z. apply NilZero.isi; destruct z; simpl; try discriminate;
      intros Hn; inversion Hn as [Hnil]; exact (DecimalPos.Unsigned.to_uint_nonnil _ Hnil). }
  pose proof (Hisi a) as Ha. rewrite H, Hisi in Ha. congruence.
Qed.

Lemma mapZoneVesselToShip_with_mmsi (env : Env) (status_ : MstZoneVessel) (m : Z) (w : World) :
  truthyZ (zv_mmsi status_) = Some m ->
  exists ship,
    mapZoneVesselToShip env status_ w = (Ok ship, w)
    /\ id ship = String_of_Z m /\ mmsi ship = String_of_Z m
    /\ lat ship = zv_lat status_ /\ lon ship = zv_lng status_
    /\ timestamp ship = zv_received status_ /\ name ship = zv_vessel_name status_
    /\ type ship = String_or_empty (zv_vtype status_)
    /\ country ship = "" /\ port_current ship = "".
Proof.
  intros Hm. unfold mapZoneVesselToShip, bind, buildShipId. rewrite Hm. unfold ret.
  eexists. split; [reflexivity |]. cbn. unfold String_or_empty. rewrite Hm.
  repeat split.
Qed.

Lemma buildStatusMap_last (env : Env) (statuses : list MstZoneVessel) :
  forall (statusMap : gmap string ShipSummary) (w : World),
  exists result,
    buildStatusMap env statuses statusMap w = (Ok result, w)
    /\ forall m,
        match statusOf m statuses with
        | Some status_ =>
            exists ship, result !! String_of_Z m = Some ship
                         /\ mapZoneVesselToShip env status_ w = (Ok ship, w)
        | None => result !! String_of_Z m = statusMap !! String_of_Z m
        end.
Proof.
  induction statuses as [| status_ rest IH]; intros statusMap w.
  - exists statusMap. split; [reflexivity |]. intros m. reflexivity.
  - simpl. destruct (truthyZ (zv_mmsi status_)) as [z |] eqn:Hz.
    + destruct (mapZoneVesselToShip_with_mmsi env status_ z w Hz) as (mapped & Hmap & _).
      unfold bind at 1. rewrite Hmap.
      destruct (IH (<[String_of_Z z := mapped]> statusMap) w) as (result & Hrun & Hlook).
      exists result. split; [exact Hrun |]. intros m. specialize (Hlook m).
      unfold statusOf in *. rewrite filter_cons.
      destruct (decide (truthyZ (zv_mmsi status_) = Some m)) as [Heq | Hne].
      * rewrite last_cons.
        destruct (last (filter _ rest)) as [later |]; [exact Hlook |].
        assert (z = m) as -> by congruence.
        rewrite lookup_insert_eq in Hlook. eauto.
      * destruct (last (filter _ rest)) as [later |]; [exact Hlook |].
        rewrite Hlook. apply lookup_insert_ne.
        intros Hs. apply String_of_Z_inj in Hs. congruence.
    + destruct (IH statusMap w) as (result & Hrun & Hlook).
      exists result. split; [exact Hrun |]. intros m. specialize (Hlook m).
      unfold statusOf in *. rewrite filter_cons.
      destruct (decide (truthyZ (zv_mmsi status_) = Some m)) as [Heq | Hne];
        [congruence | exact Hlook].
Qed.

(** X20. Port mode joins the port listing with the bulk status answer by
    MMSI.  Building the status map never fails and reads no clock.  A port
    vessel whose MMSI no status record carries is dropped; otherwise it is
    shown with the position, timestamp and name of the last status record
    with its MMSI (a later record replaces an earlier one), the type and
    flag of the port listing where it gives them, and the name of the
    resolved port as its current port. *)
Theorem port_vessel_joined_with_latest_status :
  forall (env : Env) (portReference : PortReference) (statuses : list MstZoneVessel)
         (vessel : MstPortVessel) (m : Z) (w : World),
    truthyZ (pv_mmsi vessel) = Some m ->
    exists statusMap,
      buildStatusMap env statuses ∅ w = (Ok statusMap, w)
      /\ match statusOf m statuses with
         | None => mergePortVessel portReference statusMap vessel = None
         | Some status_ =>
             exists ship,
               mergePortVessel portReference statusMap vessel = Some ship
               /\ id ship = String_of_Z m /\ mmsi ship = String_of_Z m
               /\ lat ship = zv_lat status_ /\ lon ship = zv_lng status_
               /\ timestamp ship = zv_received status_
               /\ name ship = zv_vessel_name status_
               /\ type ship = match pv_vessel_type vessel with
                              | Some t => t
                              | None => String_or_empty (zv_vtype status_)
                              end
               /\ country ship = match pv_flag vessel with Some f => f | None => "" end
               /\ port_current ship = match ref_name portReference with
                                      | Some n => n
                                      | None => ""
                                      end
         end.
Proof.
  intros env portReference statuses vessel m w Hm.
  destruct (buildStatusMap_last env statuses ∅ w) as (statusMap & Hrun & Hlook).
  exists statusMap. split; [exact Hrun |]. specialize (Hlook m).
  unfold mergePortVessel. rewrite Hm.
  destruct (statusOf m statuses) as [status_ |] eqn:Hlast.
  - destruct Hlook as (ship & Hship & Hmap).
    assert (truthyZ (zv_mmsi status_) = Some m) as Hsm.
    { unfold statusOf in Hlast. apply last_Some_elem_of in Hlast.
      apply list_elem_of_filter in Hlast as [H _]. exact H. }
    destruct (mapZoneVesselToShip_with_mmsi env status_ m w Hsm)
      as (ship' & Hmap' & Hid & Hmmsi & Hlat & Hlon & Hts & Hname & Htype & Hcountry & Hport).
    assert (ship' = ship) as -> by congruence.
    rewrite Hship. eexists. split; [reflexivity |]. cbn.
    rewrite Htype, Hcountry, Hport. repeat split; assumption.
  - rewrite Hlook, lookup_empty. reflexivity.
Qed.

(** ** The routes *)

Lemma catch_reply {A : Type} (code : Z) (m : M A) (w : World) :
  catch (result <- m ;; ret (Sent result)) (fun error => ret (Failed code (Thrown error))) w
  = match m w with
    | (Ok result, w') => (Ok (Sent result), w')
    | (Throw e, w') => (Ok (Failed code (Thrown e)), w')
    end.
Proof. unfold catch, bind, ret. destruct (m w) as [[result | e] w']; reflexivity. Qed.


Lemma mapOutcome_throw {A B : Type} (f : A -> Outcome B) (l : list A) (e : Error) :
  mapOutcome f l = Throw e -> exists x, x ∈ l /\ f x = Throw e.
Proof.
  induction l as [| x rest IH]; simpl; [discriminate |].
  destruct (f x) as [y | e'] eqn:Hx.
  - destruct (mapOutcome f rest) as [ys | e'']; [discriminate |].
    intros H. destruct (IH H) as (x' & Hin & Hx'). exists x'. split; [| exact Hx'].
    apply elem_of_cons. auto.
  - intros H. exists x. split; [apply elem_of_cons; auto | congruence].
Qed.

Lemma tokenize_throws_only_BoxTooLarge (rt : Runtime) (cfg : Config) (expression : string)
  (e : Error) :
  tokenizeAreaExpression rt cfg expression = Throw e ->
  exists latSpan_ lonSpan_, e = BoxTooLarge latSpan_ lonSpan_.
Proof.
  unfold tokenizeAreaExpression. destruct (negb (nonEmpty expression)); [discriminate |].
  destruct (mapOutcome _ _) as [[| box boxes] | e'] eqn:Hmap; try discriminate.
  intros H. inversion H; subst e'.
  apply mapOutcome_throw in Hmap as (box & _ & Hbox).
  apply normalizeBox_throws_only_BoxTooLarge in Hbox. eauto.
Qed.

(** X22. The area route.  An area parameter that cannot be decoded is
    answered with a 400 and nothing else happens; so is an expression with
    a box over the span limits, whose error is the box error.  Every
    failure of the search is answered with status 400, and a list that is
    sent has at most [MAX_RESULTS] ships, each with a position. *)
Theorem area_route_replies :
  forall (decodeURIComponent : string -> option string)
         (rt : Runtime) (cfg : Config) (env : Env)
         (areaParam : string) (query : option string) (w : World),
    (decodeURIComponent areaParam = None ->
     areaRoute decodeURIComponent rt cfg env areaParam query w
     = (Ok (Failed 400 UriMalformed), w))
    /\ (forall areaExpression e,
          decodeURIComponent areaParam = Some areaExpression ->
          tokenizeAreaExpression rt cfg areaExpression = Throw e ->
          areaRoute decodeURIComponent rt cfg env areaParam query w
          = (Ok (Failed 400 (Thrown e)), w)
          /\ exists latSpan_ lonSpan_, e = BoxTooLarge latSpan_ lonSpan_)
    /\ (exists reply w',
          areaRoute decodeURIComponent rt cfg env areaParam query w = (Ok reply, w')
          /\ match reply with
             | Sent ships => (length ships <= MAX_RESULTS cfg)%nat /\ Forall plottable ships
             | Failed code _ => code = 400
             end).
Proof.
  intros decodeURIComponent rt cfg env areaParam query w. unfold areaRoute.
  destruct (decodeURIComponent areaParam) as [areaExpression |];
    [| split; [reflexivity |]; split; [discriminate |];
       exists (Failed 400 UriMalformed), w; split; reflexivity].
  split; [discriminate |]. rewrite catch_reply. split.
  - intros expr e Hexpr Htok. inversion Hexpr; subst expr.
    unfold fetchVesselsInArea. unfold bind at 1, lift. rewrite Htok. split; [reflexivity |].
    exact (tokenize_throws_only_BoxTooLarge _ _ _ _ Htok).
  - destruct (fetchVesselsInArea rt cfg env areaExpression (minutesBackOf rt query) w)
      as [[ships | e] w'] eqn:Hrun.
    + exists (Sent ships), w'. split; [reflexivity |].
      apply fetchVesselsInArea_inv in Hrun as (boxes & dedup & _ & _ & ->).
      split; [apply mapZoneResults_length | apply mapZoneResults_plottable].
    + exists (Failed 400 (Thrown e)), w'. split; reflexivity.
Qed.


(** Two reports of one vessel in the bulk answer: the port vessel is shown
    at the position of the later one. *)
Lemma port_vessel_joined_witness :
  truthyZ (pv_mmsi samplePortVessel) = Some 247311100
  /\ exists statusMap ship,
      buildStatusMap quietEnv [namedVessel; otherVessel; movedVessel] ∅ emptyWorld
      = (Ok statusMap, emptyWorld)
      /\ mergePortVessel hamburgReference statusMap samplePortVessel = Some ship
      /\ lat ship = 40 /\ timestamp ship = "2024-01-01 11:00"
      /\ type ship = "Passenger" /\ country ship = "IT" /\ port_current ship = "Hamburg".
Proof.
  split; [reflexivity |].
  destruct (port_vessel_joined_with_latest_status quietEnv hamburgReference
              [namedVessel; otherVessel; movedVessel] samplePortVessel 247311100
              emptyWorld eq_refl) as (statusMap & Hrun & Hjoin).
  assert (statusOf 247311100 [namedVessel; otherVessel; movedVessel] = Some movedVessel)
    as Hlast by reflexivity.
  rewrite Hlast in Hjoin.
  destruct Hjoin as (ship & Hmerge & _ & _ & Hlat & _ & Hts & _ & Htype & Hcountry & Hport).
  exists statusMap, ship. repeat split; assumption.
Defined.

